(** * Lookup history and map synchronisation of the IP geolocation home screen

    A shallow embedding of [HomeScreen] (the React component that validates
    an address, queries the geolocation provider, keeps the lookup history
    and drives the Leaflet map), with the properties of its specification
    stated and settled on the embedded code.

    JavaScript strings are sequences of UTF-16 code units.  The embedding
    uses [string], whose characters range over the code units below 256;
    every string the component itself writes is in that range. *)

From Stdlib Require Import ZArith NArith Ascii String List Bool Lia.
From stdpp Require Import gmap strings list fin_maps.

Local Open Scope string_scope.
Local Open Scope nat_scope.
Local Open Scope list_scope.

(** ** Strings as the component uses them *)

Module JsString.

Definition code (c : ascii) : nat := nat_of_ascii c.

(** [WhiteSpace] and [LineTerminator] code units below 256: TAB, LF, VT,
    FF, CR, SP and NBSP. *)
Definition is_whitespace (c : ascii) : bool :=
  let n := code c in
  ((9 <=? n) && (n <=? 13)) || (n =? 32) || (n =? 160).

Definition is_empty (s : string) : bool :=
  match s with "" => true | String _ _ => false end.

Fixpoint trimStart (s : string) : string :=
  match s with
  | "" => ""
  | String c r => if is_whitespace c then trimStart r else s
  end.

Fixpoint trimEnd (s : string) : string :=
  match s with
  | "" => ""
  | String c r =>
      let r' := trimEnd r in
      if is_whitespace c && is_empty r' then "" else String c r'
  end.

(** [String.prototype.trim] *)
Definition trim (s : string) : string := trimEnd (trimStart s).

(** [String.prototype.split] with a one-character separator: the pieces
    between the occurrences of [sep]; the empty string gives one empty
    piece. *)
Fixpoint split (sep : ascii) (s : string) : list string :=
  match s with
  | "" => [""]
  | String c r =>
      if Ascii.eqb c sep then "" :: split sep r
      else match split sep r with
           | [] => [String c ""]
           | p :: ps => String c p :: ps
           end
  end.

(** [Array.prototype.join] on an array of strings. *)
Fixpoint join (sep : string) (l : list string) : string :=
  match l with
  | [] => ""
  | [x] => x
  | x :: r => x +:+ sep +:+ join sep r
  end.

Fixpoint all_chars (p : ascii → bool) (s : string) : bool :=
  match s with
  | "" => true
  | String c r => p c && all_chars p r
  end.

End JsString.

(** ** Regular expressions

  The two patterns of [IP_REGEX] use literals, character classes,
  alternation, [?] and bounded repetition only.  A pattern is run the way
  a backtracking engine runs it: [residuals r s] lists, in the engine's
  order of preference, what is left of [s] after each way of matching [r]
  at its start. *)

Module Regex.

Inductive regex : Type :=
| Eps
| Class (p : ascii → bool)
| Seq (r1 r2 : regex)
| Alt (r1 r2 : regex).

Definition Lit (c : ascii) : regex := Class (Ascii.eqb c).

(** [r?] (greedy) *)
Definition Opt (r : regex) : regex := Alt r Eps.

(** [r{n}] *)
Fixpoint Rep (n : nat) (r : regex) : regex :=
  match n with
  | 0 => Eps
  | S n => Seq r (Rep n r)
  end.

(** [r{lo,lo+extra}] (greedy) *)
Fixpoint RepUpTo (extra : nat) (r : regex) : regex :=
  match extra with
  | 0 => Eps
  | S n => Opt (Seq r (RepUpTo n r))
  end.
Definition RepRange (lo extra : nat) (r : regex) : regex :=
  Seq (Rep lo r) (RepUpTo extra r).

Definition range (lo hi : ascii) (c : ascii) : bool :=
  (JsString.code lo <=? JsString.code c) && (JsString.code c <=? JsString.code hi).

(** [\d] without the [u] or [v] flag is [[0-9]]. *)
Definition digit : ascii → bool := range "0" "9".

Definition hexdigit (c : ascii) : bool :=
  range "0" "9" c || range "a" "f" c || range "A" "F" c.

Fixpoint residuals (r : regex) (s : string) : list string :=
  match r with
  | Eps => [s]
  | Class p =>
      match s with
      | String c t => if p c then [t] else []
      | "" => []
      end
  | Seq r1 r2 => flat_map (residuals r2) (residuals r1 s)
  | Alt r1 r2 => residuals r1 s ++ residuals r2 s
  end.

(** [/^r$/.test(s)]: some way of matching [r] from the start of [s]
    consumes all of it. *)
Definition test (r : regex) (s : string) : bool :=
  existsb JsString.is_empty (residuals r s).

(** The language of a pattern. *)
Inductive matches : regex → string → Prop :=
| MEps : matches Eps ""
| MClass p c : p c = true → matches (Class p) (String c "")
| MSeq r1 r2 s1 s2 :
    matches r1 s1 → matches r2 s2 → matches (Seq r1 r2) (s1 +:+ s2)
| MAltL r1 r2 s : matches r1 s → matches (Alt r1 r2) s
| MAltR r1 r2 s : matches r2 s → matches (Alt r1 r2) s.

End Regex.

(** ** Address validation *)

Import Regex.

(** [(25[0-5]|2[0-4]\d|1?\d{1,2})] *)
Definition octet_re : regex :=
Alt (Seq (Lit "2") (Seq (Lit "5") (Class (range "0" "5"))))
 (Alt (Seq (Lit "2") (Seq (Class (range "0" "4")) (Class digit)))
    (Seq (Opt (Lit "1")) (RepRange 1 1 (Class digit)))).

(** [[0-9a-fA-F]{1,4}] *)
Definition hextet_re : regex := RepRange 1 3 (Class hexdigit).

Module IP_REGEX.
(** [/^(25[0-5]|2[0-4]\d|1?\d{1,2})(\.(25[0-5]|2[0-4]\d|1?\d{1,2})){3}$/] *)
Definition ipv4 : regex :=
  Seq octet_re (Rep 3 (Seq (Lit ".") octet_re)).

(** [/^(([0-9a-fA-F]{1,4}:){7}[0-9a-fA-F]{1,4}|::1)$/] *)
Definition ipv6 : regex :=
  Alt (Seq (Rep 7 (Seq hextet_re (Lit ":"))) hextet_re)
      (Seq (Lit ":") (Seq (Lit ":") (Lit "1"))).
End IP_REGEX.

Inductive AddressClass : Type := IPv4 | IPv6 | Invalid.

(** The validation of [handleSearch]: the text is trimmed, an empty text is
  refused, and the text must pass one of the two patterns. *)
Definition classify (text : string) : AddressClass :=
let ip := JsString.trim text in
if JsString.is_empty ip then Invalid
else if test IP_REGEX.ipv4 ip then IPv4
else if test IP_REGEX.ipv6 ip then IPv6
else Invalid.


(** ** Numbers read from text

    [parseFloat] skips leading white space and reads the longest prefix that
    is a decimal literal; the result is [NaN] when there is none.  A number
    is kept as the decimal value its literal denotes (the rounding to a
    binary64 double is not modelled); whether the result is [NaN] does not
    depend on that rounding. *)

Module JsNumber.

Inductive number : Type :=
| NaN
| Infinity (negative : bool)
| Decimal (negative : bool) (mantissa : N) (exponent : Z).

Definition isNaN (n : number) : bool :=
  match n with NaN => true | _ => false end.

(** The longest prefix of [s] whose characters satisfy [p], and the rest. *)
Fixpoint span (p : ascii → bool) (s : string) : string * string :=
  match s with
  | "" => ("", "")
  | String c r =>
      if p c then let '(a, b) := span p r in (String c a, b) else ("", s)
  end.

Definition digit_value (c : ascii) : N := N.of_nat (JsString.code c - 48).

Fixpoint digits_value (acc : N) (s : string) : N :=
  match s with
  | "" => acc
  | String c r => digits_value (10 * acc + digit_value c)%N r
  end.

(** An optional sign: whether it is [-], and the text after it. *)
Definition read_sign (s : string) : bool * string :=
  match s with
  | String "-" r => (true, r)
  | String "+" r => (false, r)
  | _ => (false, s)
  end.

(** [ExponentPart]: read only when an indicator, an optional sign and at
    least one digit are all there; otherwise the exponent is 0 and nothing
    is consumed. *)
Definition read_exponent (s : string) : Z :=
  match s with
  | String c r =>
      if Ascii.eqb c "e" || Ascii.eqb c "E" then
        let '(neg, r1) := read_sign r in
        let '(ds, _) := span digit r1 in
        if JsString.is_empty ds then 0%Z
        else
          let e := Z.of_N (digits_value 0 ds) in
          if neg then (- e)%Z else e
      else 0%Z
  | "" => 0%Z
  end.

Fixpoint starts_with (prefix s : string) : bool :=
  match prefix, s with
  | "", _ => true
  | String a p, String b r => Ascii.eqb a b && starts_with p r
  | String _ _, "" => false
  end.

Definition parseFloat (text : string) : number :=
  let '(neg, s) := read_sign (JsString.trimStart text) in
  if starts_with "Infinity" s then Infinity neg
  else
    let '(int, r1) := span digit s in
    let '(frac, r2) :=
      match r1 with
      | String "." r => span digit r
      | _ => ("", r1)
      end in
    if JsString.is_empty int && JsString.is_empty frac then NaN
    else
      Decimal neg (digits_value 0 (int +:+ frac))
              (read_exponent r2 - Z.of_nat (String.length frac)).

End JsNumber.

(** ** JSON texts

    [JSON.parse] is the host's.  Where the component's behaviour depends on
    it, the embedding takes it as a parameter; [JSON.parse] below is a
    reference reader of the JSON grammar, used to run the embedding on
    concrete texts.  A number is kept as its literal and a string as the
    text between its quotes, escapes checked and left as written. *)

Inductive Exception : Type :=
| SyntaxError
| TypeError.

Inductive Completion (A : Type) : Type :=
| Normal (a : A)
| Throw (e : Exception).
Arguments Normal {A} a.
Arguments Throw {A} e.

(** [try { body } catch { handler }] *)
Definition try_catch {A : Type} (body : Completion A) (handler : Completion A)
  : Completion A :=
  match body with
  | Normal a => Normal a
  | Throw _ => handler
  end.

Module JSON.

#[warnings="-register-all"] Inductive value : Type :=
| Null
| Bool (b : bool)
| Number (literal : string)
| Str (raw : string)
| Array (items : list value)
| Object (members : list (string * value)).

Definition is_ws (c : ascii) : bool :=
  let n := JsString.code c in
  (n =? 32) || (n =? 9) || (n =? 10) || (n =? 13).

Fixpoint skip_ws (s : string) : string :=
  match s with
  | String c r => if is_ws c then skip_ws r else s
  | "" => ""
  end.

(** The quotation mark. *)
Definition dquote : ascii := Eval cbv in ascii_of_nat 34.

Definition is_simple_escape (c : ascii) : bool :=
  existsb (Ascii.eqb c) [dquote ; "\" ; "/" ; "b" ; "f" ; "n" ; "r" ; "t"]%char.

(** The characters of a string up to its closing quote, and the text after
    the quote. *)
Fixpoint string_body (s : string) : option (string * string) :=
  match s with
  | "" => None
  | String c r =>
      if Ascii.eqb c dquote then Some ("", r)
      else if Ascii.eqb c "\" then
        match r with
        | String e r1 =>
            if is_simple_escape e then
              match string_body r1 with
              | Some (b, rest) => Some (String c (String e b), rest)
              | None => None
              end
            else if Ascii.eqb e "u" then
              match r1 with
              | String h1 (String h2 (String h3 (String h4 r2))) =>
                  if forallb hexdigit [h1; h2; h3; h4] then
                    match string_body r2 with
                    | Some (b, rest) =>
                        Some (String c (String e (String h1 (String h2
                               (String h3 (String h4 b))))), rest)
                    | None => None
                    end
                  else None
              | _ => None
              end
            else None
        | "" => None
        end
      else if JsString.code c <? 32 then None
      else
        match string_body r with
        | Some (b, rest) => Some (String c b, rest)
        | None => None
        end
  end.

(** A JSON number: an optional minus sign; an integer part that is [0] or
    starts with a non-zero digit; an optional fraction of a dot and at least
    one digit; an optional exponent of [e] or [E], an optional sign and at
    least one digit. *)
Definition number_literal (s : string) : option (string * string) :=
  let '(sign, s1) :=
    match s with String "-" r => ("-", r) | _ => ("", s) end in
  let int_part :=
    match s1 with
    | String "0" r => Some ("0", r)
    | _ => let '(ds, r) := JsNumber.span digit s1 in
           if JsString.is_empty ds then None else Some (ds, r)
    end in
  match int_part with
  | None => None
  | Some (int, s2) =>
      let frac_part :=
        match s2 with
        | String "." r =>
            let '(ds, r') := JsNumber.span digit r in
            if JsString.is_empty ds then None else Some ("." +:+ ds, r')
        | _ => Some ("", s2)
        end in
      match frac_part with
      | None => None
      | Some (frac, s3) =>
          let exp_part :=
            match s3 with
            | String c r =>
                if Ascii.eqb c "e" || Ascii.eqb c "E" then
                  let '(sg, r1) :=
                    match r with
                    | String "-" r' => ("-", r')
                    | String "+" r' => ("+", r')
                    | _ => ("", r)
                    end in
                  let '(ds, r2) := JsNumber.span digit r1 in
                  if JsString.is_empty ds then None
                  else Some (String c (sg +:+ ds), r2)
                else Some ("", s3)
            | "" => Some ("", s3)
            end in
          match exp_part with
          | None => None
          | Some (ex, s4) => Some (sign +:+ int +:+ frac +:+ ex, s4)
          end
      end
  end.

Definition keyword (word : string) (v : value) (s : string)
  : option (value * string) :=
  if JsNumber.starts_with word s
  then Some (v, String.substring (String.length word)
                                 (String.length s - String.length word) s)
  else None.

Fixpoint parse_value (fuel : nat) (s : string) : option (value * string) :=
  match fuel with
  | 0 => None
  | S fuel =>
      match skip_ws s with
      | "" => None
      | String c r =>
          if Ascii.eqb c "n" then keyword "null" Null (String c r)
          else if Ascii.eqb c "t" then keyword "true" (Bool true) (String c r)
          else if Ascii.eqb c "f" then keyword "false" (Bool false) (String c r)
          else if Ascii.eqb c dquote then
            match string_body r with
            | Some (b, rest) => Some (Str b, rest)
            | None => None
            end
          else if Ascii.eqb c "[" then
            match skip_ws r with
            | String "]" rest => Some (Array [], rest)
            | _ =>
                match parse_elements fuel r with
                | Some (vs, rest) => Some (Array vs, rest)
                | None => None
                end
            end
          else if Ascii.eqb c "{" then
            match skip_ws r with
            | String "}" rest => Some (Object [], rest)
            | _ =>
                match parse_members fuel r with
                | Some (ms, rest) => Some (Object ms, rest)
                | None => None
                end
            end
          else
            match number_literal (String c r) with
            | Some (lit, rest) => Some (Number lit, rest)
            | None => None
            end
      end
  end
with parse_elements (fuel : nat) (s : string)
  : option (list value * string) :=
  match fuel with
  | 0 => None
  | S fuel =>
      match parse_value fuel s with
      | None => None
      | Some (v, r) =>
          match skip_ws r with
          | String "]" rest => Some ([v], rest)
          | String "," rest =>
              match parse_elements fuel rest with
              | Some (vs, rest') => Some (v :: vs, rest')
              | None => None
              end
          | _ => None
          end
      end
  end
with parse_members (fuel : nat) (s : string)
  : option (list (string * value) * string) :=
  match fuel with
  | 0 => None
  | S fuel =>
      match skip_ws s with
      | String c r =>
          if negb (Ascii.eqb c dquote) then None
          else
            match string_body r with
            | None => None
            | Some (k, r1) =>
                match skip_ws r1 with
                | String ":" r2 =>
                    match parse_value fuel r2 with
                    | None => None
                    | Some (v, r3) =>
                        match skip_ws r3 with
                        | String "}" rest => Some ([(k, v)], rest)
                        | String "," rest =>
                            match parse_members fuel rest with
                            | Some (ms, rest') => Some ((k, v) :: ms, rest')
                            | None => None
                            end
                        | _ => None
                        end
                    end
                | _ => None
                end
            end
      | "" => None
      end
  end.

(** One value, white space around it allowed, and nothing else. *)
Definition parse (text : string) : Completion value :=
  match parse_value (2 * String.length text + 2) text with
  | Some (v, rest) =>
      if JsString.is_empty (skip_ws rest) then Normal v else Throw SyntaxError
  | None => Throw SyntaxError
  end.

End JSON.

(** ** Data model *)

(** The provider's answer ([await res.json()]): the fields the component
    reads, each of which the provider may omit, and whatever else it sent. *)
Record GeoRecord : Type := {
  geo_ip : option string;
  city : option string;
  region : option string;
  country : option string;
  loc : option string;
  org : option string;
  others : list (string * JSON.value);
}.

(** [{ ip: query, data, when: new Date().toISOString() }] *)
Record HistoryEntry : Type := {
  ip : string;
  data : GeoRecord;
  when : string;
}.

Definition STORAGE_KEY : string := "ipHistory_v1".

(** [localStorage]: [getItem] is lookup, [setItem] is insert and
    [removeItem] is delete. *)
Abbreviation Storage := (gmap string string).

(** [x || fallback] for an optional string: absent and empty are falsy. *)
Definition or_else (x : option string) (fallback : string) : string :=
  match x with
  | Some s => if JsString.is_empty s then fallback else s
  | None => fallback
  end.

(** [if (x)] for an optional string. *)
Definition truthy (x : option string) : bool :=
  match x with
  | Some s => negb (JsString.is_empty s)
  | None => false
  end.

(** ** History store *)

(** The initializer of the [history] state:
    [try { return JSON.parse(localStorage.getItem(STORAGE_KEY) || "[]") }
     catch { return [] }]. *)
Definition load (JSON_parse : string → Completion JSON.value)
    (localStorage : Storage) : Completion JSON.value :=
  try_catch (JSON_parse (or_else (localStorage !! STORAGE_KEY) "[]"))
            (Normal (JSON.Array [])).

(** The updater that [fetchGeoFor] hands to [setHistory]:
    [[entry, ...prev.filter((h) => h.ip !== query)].slice(0, 50)]. *)
Definition recordLookup (query : string) (entry : HistoryEntry)
    (prev : list HistoryEntry) : list HistoryEntry :=
  take 50 (entry :: filter (λ h, ip h ≠ query) prev).

(** [Array.prototype.filter] with a predicate on the element and its
    index. *)
Fixpoint filter_from {A : Type} (p : A → nat → bool) (idx : nat) (l : list A)
  : list A :=
  match l with
  | [] => []
  | x :: r =>
      if p x idx then x :: filter_from p (S idx) r
      else filter_from p (S idx) r
  end.
Definition filter_indexed {A : Type} (p : A → nat → bool) (l : list A)
  : list A := filter_from p 0 l.

(** [!!selectedForDelete[idx]]: an index that was never toggled reads
    [undefined], which is falsy. *)
Definition marked (selectedForDelete : gmap nat bool) (idx : nat) : bool :=
  default false (selectedForDelete !! idx).

(** [history.filter((_, idx) => !selectedForDelete[idx])] *)
Definition deleteIndices (selectedForDelete : gmap nat bool)
    (history : list HistoryEntry) : list HistoryEntry :=
  filter_indexed (λ _ idx, negb (marked selectedForDelete idx)) history.

(** ** Map surface *)

Import JsNumber.

Record LatLng : Type := { lat : number; lng : number }.

Record Marker : Type := {
  latlng : LatLng;
  popup : option string;
  popupOpen : bool;
}.

Record Circle : Type := { circle_center : LatLng; radius : N }.

(** The calls the component makes on Leaflet. *)
Inductive MapCall : Type :=
| setView (center : LatLng) (zoom : N)
| addMarker (at_ : LatLng)
| setLatLng (at_ : LatLng)
| bindPopup (content : string)
| openPopup
| removeLayer (layer : Circle)
| addCircle (layer : Circle).

(** The Leaflet map instance: its view as the component's calls set it, the
    [_precisionCircle] property the component hangs on it, and the calls it
    has received, latest first.  The styling options of the circle are left
    out. *)
Record LeafletMap : Type := {
  center : LatLng;
  zoom : N;
  _precisionCircle : option Circle;
  calls : list MapCall;
}.

Record MapRefs : Type := {
  mapInstanceRef : option LeafletMap;
  markerRef : option Marker;
}.

Definition zero : number := Decimal false 0 0.

(** [L.map(mapRef.current, { center: [20, 0], zoom: 2, minZoom: 2 })] *)
Definition initMap (refs : MapRefs) : MapRefs :=
  match mapInstanceRef refs with
  | Some _ => refs
  | None =>
      {| mapInstanceRef :=
           Some {| center := {| lat := Decimal false 20 0; lng := zero |};
                   zoom := 2; _precisionCircle := None; calls := [] |};
         markerRef := markerRef refs |}
  end.

Definition popupParts (geo : GeoRecord) : list string :=
  (if truthy (geo_ip geo)
   then ["<strong>IP:</strong> " +:+ or_else (geo_ip geo) ""] else []) ++
  (if truthy (city geo)
   then ["<strong>City:</strong> " +:+ or_else (city geo) ""] else []) ++
  (if truthy (region geo)
   then ["<strong>Region:</strong> " +:+ or_else (region geo) ""] else []) ++
  (if truthy (country geo)
   then ["<strong>Country:</strong> " +:+ or_else (country geo) ""] else []) ++
  (if truthy (org geo)
   then ["<strong>Org:</strong> " +:+ or_else (org geo) ""] else []).

(** [geo.loc || ""], split at the commas, each piece through
    [parseFloat]. *)
Definition loc_parts (geo : GeoRecord) : list number :=
  parseFloat <$> JsString.split "," (or_else (loc geo) "").

(** The guard of the map effect:
    [parts.length !== 2 || parts.some((n) => Number.isNaN(n))]. *)
Definition loc_rejected (geo : GeoRecord) : bool :=
  negb (length (loc_parts geo) =? 2) || existsb isNaN (loc_parts geo).

(** The effect that runs when [geo] changes. *)
Definition updateMap (geo : option GeoRecord) (refs : MapRefs) : MapRefs :=
  match geo, mapInstanceRef refs with
  | Some geo, Some map =>
      if loc_rejected geo then refs
      else
        match loc_parts geo with
        | [lat; lon] =>
            let here := {| lat := lat; lng := lon |} in
            (* center map on the location *)
            let log1 := [setView here 12] in
            (* add or move marker *)
            let '(marker, log2) :=
              match markerRef refs with
              | None =>
                  ({| latlng := here; popup := None; popupOpen := false |},
                   addMarker here :: log1)
              | Some m =>
                  ({| latlng := here; popup := popup m;
                      popupOpen := popupOpen m |},
                   setLatLng here :: log1)
              end in
            (* update popup content *)
            let content := JsString.join "<br/>" (popupParts geo) in
            let marker :=
              {| latlng := latlng marker; popup := Some content;
                 popupOpen := true |} in
            let log3 := openPopup :: bindPopup content :: log2 in
            (* remove existing precision circle if any *)
            let log4 :=
              match _precisionCircle map with
              | Some c => removeLayer c :: log3
              | None => log3
              end in
            (* add circle *)
            let circle := {| circle_center := here; radius := 500 |} in
            {| mapInstanceRef :=
                 Some {| center := here; zoom := 12;
                         _precisionCircle := Some circle;
                         calls := (addCircle circle :: log4) ++ calls map |};
               markerRef := Some marker |}
        | _ => refs
        end
  | _, _ => refs
  end.

(** ** Session controller

    The state of [HomeScreen]: its five [useState] cells, the refs of the
    map, [localStorage], and the calls of [fetchGeoFor] that are suspended
    at [await fetch(url)], oldest first. *)

Record Request : Type := { query : string; url : string }.

Record State : Type := {
  geo : option GeoRecord;
  search : string;
  error : string;
  history : list HistoryEntry;
  selectedForDelete : gmap nat bool;
  refs : MapRefs;
  localStorage : Storage;
  inflight : list Request;
}.

Definition setGeo (v : option GeoRecord) (s : State) : State :=
  {| geo := v; search := search s; error := error s; history := history s;
     selectedForDelete := selectedForDelete s; refs := refs s;
     localStorage := localStorage s; inflight := inflight s |}.

Definition setSearch (v : string) (s : State) : State :=
  {| geo := geo s; search := v; error := error s; history := history s;
     selectedForDelete := selectedForDelete s; refs := refs s;
     localStorage := localStorage s; inflight := inflight s |}.

Definition setError (v : string) (s : State) : State :=
  {| geo := geo s; search := search s; error := v; history := history s;
     selectedForDelete := selectedForDelete s; refs := refs s;
     localStorage := localStorage s; inflight := inflight s |}.

Definition setHistory (v : list HistoryEntry) (s : State) : State :=
  {| geo := geo s; search := search s; error := error s; history := v;
     selectedForDelete := selectedForDelete s; refs := refs s;
     localStorage := localStorage s; inflight := inflight s |}.

Definition setSelectedForDelete (v : gmap nat bool) (s : State) : State :=
  {| geo := geo s; search := search s; error := error s; history := history s;
     selectedForDelete := v; refs := refs s;
     localStorage := localStorage s; inflight := inflight s |}.

Definition setRefs (v : MapRefs) (s : State) : State :=
  {| geo := geo s; search := search s; error := error s; history := history s;
     selectedForDelete := selectedForDelete s; refs := v;
     localStorage := localStorage s; inflight := inflight s |}.

Definition setLocalStorage (v : Storage) (s : State) : State :=
  {| geo := geo s; search := search s; error := error s; history := history s;
     selectedForDelete := selectedForDelete s; refs := refs s;
     localStorage := v; inflight := inflight s |}.

Definition setInflight (v : list Request) (s : State) : State :=
  {| geo := geo s; search := search s; error := error s; history := history s;
     selectedForDelete := selectedForDelete s; refs := refs s;
     localStorage := localStorage s; inflight := v |}.

(** What the awaited part of [fetchGeoFor] ends in: the parsed body of a
    successful response, or a failure (the request is rejected, the status
    is not ok, or the body is not JSON). *)
Inductive Outcome : Type :=
| Ok (data : GeoRecord)
| Failed.

Inductive Event : Type :=
| Mount
| MapReady
| Change (text : string)
| ClickSearch
| ClickClear
| ClickHistory (idx : nat)
| ToggleSelect (idx : nat)
| ClickDeleteSelected
| ClickClearAll
| Settle (k : nat) (outcome : Outcome) (now : string).

Section Controller.

(** [JSON.stringify] on a history is the host's. *)
Variable JSON_stringify : list HistoryEntry → string.

(** [fetchGeoFor] up to its [await fetch(url)]. *)
Definition fetchGeoFor (query : string) (s : State) : State :=
  let s := setError "" s in
  let url :=
    if String.eqb query "geo" then "https://ipinfo.io/geo"
    else "https://ipinfo.io/" +:+ query +:+ "/geo" in
  setInflight (inflight s ++ [{| query := query; url := url |}]) s.

(** [fetchGeoFor] from the point where the awaited request settles. *)
Definition fetchGeoFor_resume (query : string) (outcome : Outcome)
    (now : string) (s : State) : State :=
  match outcome with
  | Ok data =>
      let s := setGeo (Some data) s in
      (* if this is a search by IP (not "geo" automatic), save to history *)
      let s :=
        if negb (String.eqb query "geo") then
          let entry := {| ip := query; data := data; when := now |} in
          let deduped := recordLookup query entry (history s) in
          let s :=
            setLocalStorage
              (<[STORAGE_KEY := JSON_stringify deduped]> (localStorage s)) s in
          setHistory deduped s
        else s in
      (* the effect on [geo] runs once the new state is committed *)
      setRefs (updateMap (geo s) (refs s)) s
  | Failed => setError "Unable to fetch geolocation for the provided IP." s
  end.

Definition handleSearch (s : State) : State :=
  let s := setError "" s in
  let ip := JsString.trim (search s) in
  if JsString.is_empty ip then setError "Please enter an IP address." s
  else if negb (test IP_REGEX.ipv4 ip) && negb (test IP_REGEX.ipv6 ip) then
    setError "Please enter a valid IPv4 or IPv6 address." s
  else fetchGeoFor ip s.

Definition handleClear (s : State) : State :=
  fetchGeoFor "geo" (setError "" (setSearch "" s)).

Definition handleHistoryClick (ip : string) (s : State) : State :=
  fetchGeoFor ip (setSearch ip s).

(** [{ ...prev, [idx]: !prev[idx] }] *)
Definition toggleSelect (idx : nat) (s : State) : State :=
  setSelectedForDelete
    (<[idx := negb (marked (selectedForDelete s) idx)]> (selectedForDelete s))
    s.

Definition deleteSelected (s : State) : State :=
  let remaining := deleteIndices (selectedForDelete s) (history s) in
  let s := setHistory remaining s in
  let s :=
    setLocalStorage
      (<[STORAGE_KEY := JSON_stringify remaining]> (localStorage s)) s in
  setSelectedForDelete ∅ s.

(** The [onClick] of the Clear All button. *)
Definition clearAll (s : State) : State :=
  setLocalStorage (delete STORAGE_KEY (localStorage s)) (setHistory [] s).

Definition step (s : State) (ev : Event) : State :=
  match ev with
  | Mount => fetchGeoFor "geo" s
  | MapReady => setRefs (initMap (refs s)) s
  | Change text => setSearch text s
  | ClickSearch => handleSearch s
  | ClickClear => handleClear s
  | ClickHistory idx =>
      match history s !! idx with
      | Some h => handleHistoryClick (ip h) s
      | None => s
      end
  | ToggleSelect idx => toggleSelect idx s
  | ClickDeleteSelected => deleteSelected s
  | ClickClearAll => clearAll s
  | Settle k outcome now =>
      match inflight s !! k with
      | Some req =>
          fetchGeoFor_resume (query req) outcome now
            (setInflight (delete k (inflight s)) s)
      | None => s
      end
  end.

Definition run (s : State) (evs : list Event) : State := foldl step s evs.

End Controller.

(** The state before the component mounts, given what [load] read. *)
Definition initial (stored : list HistoryEntry) (ls : Storage) : State :=
  {| geo := None; search := ""; error := ""; history := stored;
     selectedForDelete := ∅;
     refs := {| mapInstanceRef := None; markerRef := None |};
     localStorage := ls; inflight := [] |}.

(** ** The shapes the two patterns accept, and the shapes the specification
    names *)

Definition decimal_value (s : string) : N := JsNumber.digits_value 0 s.

(** What [(25[0-5]|2[0-4]\d|1?\d{1,2})] accepts: one or two decimal digits,
    or three decimal digits that read as 100 to 255. *)
Definition octet_ok (s : string) : bool :=
  JsString.all_chars digit s &&
  ((String.length s =? 1) || (String.length s =? 2) ||
   ((String.length s =? 3) &&
    (100 <=? decimal_value s)%N && (decimal_value s <=? 255)%N)).

(** What [[0-9a-fA-F]{1,4}] accepts. *)
Definition hextet_ok (s : string) : bool :=
  JsString.all_chars hexdigit s &&
  (1 <=? String.length s) && (String.length s <=? 4).

(** [n] pieces separated by [sep], each satisfying [piece]. *)
Definition separated (sep : ascii) (n : nat) (piece : string → bool)
    (s : string) : bool :=
  let ps := JsString.split sep s in
  (length ps =? n) && forallb piece ps.

Definition ipv4_shape (s : string) : bool := separated "." 4 octet_ok s.

Definition ipv6_shape (s : string) : bool :=
  separated ":" 8 hextet_ok s || String.eqb s "::1".

(** The specification's octet, "decimal, in [0,255]", read by standard
    decimal parsing: leading zeros do not change the value. *)
Definition spec_octet_decimal (s : string) : bool :=
  negb (JsString.is_empty s) && JsString.all_chars digit s &&
  (decimal_value s <=? 255)%N.

(** The specification's octet read without leading zeros: the canonical
    decimal numeral of a value in [0,255]. *)
Definition spec_octet_canonical (s : string) : bool :=
  spec_octet_decimal s &&
  match s with
  | String "0" (String _ _) => false
  | _ => true
  end.

(** The specification's IPv4: four dot-separated octets. *)
Definition spec_ipv4 (octet : string → bool) (s : string) : bool :=
  separated "." 4 octet s.

(** The concatenation of the pieces, each with [sep] before it. *)
Fixpoint prefixed (sep : ascii) (l : list string) : string :=
  match l with
  | [] => ""
  | x :: r => String sep x +:+ prefixed sep r
  end.

(** The concatenation of the pieces, each with [sep] after it. *)
Fixpoint suffixed (sep : ascii) (l : list string) : string :=
  match l with
  | [] => ""
  | x :: r => (x +:+ String sep "") +:+ suffixed sep r
  end.

(** The text whose pieces are [l]. *)
Definition unsplit (sep : ascii) (l : list string) : string :=
  match l with
  | [] => ""
  | a :: r => a +:+ prefixed sep r
  end.

Definition no_char (sep : ascii) (s : string) : bool :=
  JsString.all_chars (λ c, negb (Ascii.eqb c sep)) s.

(** ** Sequences of lookups *)

(** A sequence of [recordLookup] calls, each with the entry that
    [fetchGeoFor] builds for its query. *)
Definition recordLookups (calls : list HistoryEntry)
    (h : list HistoryEntry) : list HistoryEntry :=
  foldl (λ h e, recordLookup (ip e) e h) h calls.

(** The invariant of the history. *)
Definition history_ok (h : list HistoryEntry) : Prop :=
  NoDup (ip <$> h) ∧ length h ≤ 50.

(** ** A reference serializer

    Used where the embedding is run on concrete states: a history as
    [JSON.stringify] writes it when every record holds its fields in the
    order [ip], [city], [region], [country], [loc], [org]. *)

Module Stringify.

Definition hex (n : nat) : ascii :=
  nth n ["0"; "1"; "2"; "3"; "4"; "5"; "6"; "7"; "8"; "9";
         "a"; "b"; "c"; "d"; "e"; "f"]%char "0"%char.

Definition escape_char (c : ascii) : string :=
  let n := JsString.code c in
  if Ascii.eqb c JSON.dquote then String "\" (String JSON.dquote "")
  else if Ascii.eqb c "\" then "\\"
  else if n =? 8 then "\b"
  else if n =? 9 then "\t"
  else if n =? 10 then "\n"
  else if n =? 12 then "\f"
  else if n =? 13 then "\r"
  else if n <? 32 then "\u00" +:+ String (hex (n / 16)) (String (hex (n mod 16)) "")
  else String c "".

Fixpoint escape (s : string) : string :=
  match s with
  | "" => ""
  | String c r => escape_char c +:+ escape r
  end.

Definition quote (s : string) : string :=
  String JSON.dquote (escape s) +:+ String JSON.dquote "".

(** A string that is kept as written between its quotes. *)
Definition quote_raw (raw : string) : string :=
  String JSON.dquote raw +:+ String JSON.dquote "".

Fixpoint value (v : JSON.value) : string :=
  match v with
  | JSON.Null => "null"
  | JSON.Bool true => "true"
  | JSON.Bool false => "false"
  | JSON.Number literal => literal
  | JSON.Str raw => quote_raw raw
  | JSON.Array items => "[" +:+ JsString.join "," (map value items) +:+ "]"
  | JSON.Object members =>
      "{" +:+
      JsString.join ","
        (map (λ m, quote_raw (fst m) +:+ ":" +:+ value (snd m)) members) +:+
      "}"
  end.

Definition field (name : string) (x : option string) : list string :=
  match x with
  | Some s => [quote name +:+ ":" +:+ quote s]
  | None => []
  end.

Definition record (g : GeoRecord) : string :=
  "{" +:+
  JsString.join ","
    (field "ip" (geo_ip g) ++ field "city" (city g) ++
     field "region" (region g) ++ field "country" (country g) ++
     field "loc" (loc g) ++ field "org" (org g) ++
     map (λ m, quote_raw (fst m) +:+ ":" +:+ value (snd m)) (others g)) +:+
  "}".

Definition entry (h : HistoryEntry) : string :=
  "{" +:+ quote "ip" +:+ ":" +:+ quote (ip h) +:+ "," +:+
  quote "data" +:+ ":" +:+ record (data h) +:+ "," +:+
  quote "when" +:+ ":" +:+ quote (when h) +:+ "}".

Definition history (h : list HistoryEntry) : string :=
  "[" +:+ JsString.join "," (map entry h) +:+ "]".

End Stringify.

(** ** Sample data *)

Module Samples.

Definition geo_google : GeoRecord :=
  {| geo_ip := Some "8.8.8.8"; city := Some "Mountain View";
     region := Some "California"; country := Some "US";
     loc := Some "37.4056,-122.0775"; org := Some "AS15169 Google LLC";
     others := [("postal", JSON.Str "94043")] |}.

Definition geo_cloudflare : GeoRecord :=
  {| geo_ip := Some "1.1.1.1"; city := Some "Brisbane";
     region := Some "Queensland"; country := Some "AU";
     loc := Some "-27.4816,153.0175"; org := Some "AS13335 Cloudflare, Inc.";
     others := [] |}.

(** The record of the specification's map example. *)
Definition geo_located : GeoRecord :=
  {| geo_ip := Some "203.0.113.7"; city := None; region := None;
     country := None; loc := Some "12.3,-45.6"; org := None; others := [] |}.

(** A record whose [loc] does not read as two numbers. *)
Definition geo_unlocated : GeoRecord :=
  {| geo_ip := Some "203.0.113.9"; city := Some "Nowhere"; region := None;
     country := None; loc := Some "unknown"; org := None; others := [] |}.

Definition old_google : HistoryEntry :=
  {| ip := "8.8.8.8"; data := geo_google; when := "2025-01-01T10:00:00.000Z" |}.

Definition old_cloudflare : HistoryEntry :=
  {| ip := "1.1.1.1"; data := geo_cloudflare;
     when := "2025-01-01T09:00:00.000Z" |}.

Definition old_example : HistoryEntry :=
  {| ip := "203.0.113.7"; data := geo_located;
     when := "2025-01-01T08:00:00.000Z" |}.

Definition new_cloudflare : HistoryEntry :=
  {| ip := "1.1.1.1"; data := geo_cloudflare;
     when := "2025-01-02T12:00:00.000Z" |}.

(** A mounted map that has drawn nothing yet. *)
Definition fresh_map : MapRefs :=
  initMap {| mapInstanceRef := None; markerRef := None |}.

End Samples.

(** ** The rest of the home screen *)

(** A text that passes one of the two patterns of [IP_REGEX]. *)
Definition valid_ip (q : string) : bool :=
  test IP_REGEX.ipv4 q || test IP_REGEX.ipv6 q.

(** The characters of an accepted address. *)
Definition address_char (c : ascii) : bool :=
  hexdigit c || Ascii.eqb c "." || Ascii.eqb c ":".

(** The [onClick] of the Logout button:
    [localStorage.removeItem("authToken"); window.location.href = "/login"].
    The assignment reloads the page at [/login]; here is what it leaves in
    the storage. *)
Definition logout (s : State) : State :=
  setLocalStorage (delete "authToken" (localStorage s)) s.

(** The state once the component is mounted on the storage [ls], whose slot
    [load] read as [stored]: the mount effect has dispatched the lookup of
    the caller's own address. *)
Definition mounted (stored : list HistoryEntry) (ls : Storage) : State :=
  fetchGeoFor "geo" (initial stored ls).

(** The slot of the history holds what the screen shows: the written
    history, or nothing when the history is empty. *)
Definition storage_synced (stringify : list HistoryEntry → string)
    (s : State) : Prop :=
  localStorage s !! STORAGE_KEY = Some (stringify (history s)) ∨
  (localStorage s !! STORAGE_KEY = None ∧ history s = []).

(** Every recorded address and every lookup in flight, the lookup of the
    caller's own address apart, passed the validation. *)
Definition queries_valid (s : State) : Prop :=
  Forall (λ h, valid_ip (ip h) = true) (history s) ∧
  Forall (λ r, query r = "geo" ∨ valid_ip (query r) = true) (inflight s).

Definition is_addMarker (c : MapCall) : bool :=
  match c with addMarker _ => true | _ => false end.

Definition is_addCircle (c : MapCall) : bool :=
  match c with addCircle _ => true | _ => false end.

Definition is_removeLayer (c : MapCall) : bool :=
  match c with removeLayer _ => true | _ => false end.

(** How many of the calls a map has received satisfy [p]. *)
Definition count_calls (p : MapCall → bool) (refs : MapRefs) : nat :=
  match mapInstanceRef refs with
  | Some map => length (List.filter p (calls map))
  | None => 0
  end.

(** What the map shows: its view and its overlay circle. *)
Definition shown (refs : MapRefs) : option (LatLng * N * option Circle) :=
  (λ map, (center map, zoom map, _precisionCircle map))
    <$> mapInstanceRef refs.

(** The bookkeeping the effect relies on: the marker ref is set exactly when
    a marker was added, and the circle property is set exactly when a circle
    is on the map. *)
Definition refs_consistent (refs : MapRefs) : Prop :=
  match mapInstanceRef refs with
  | None => markerRef refs = None
  | Some map =>
      length (List.filter is_addMarker (calls map))
      = match markerRef refs with Some _ => 1 | None => 0 end ∧
      length (List.filter is_addCircle (calls map))
      = length (List.filter is_removeLayer (calls map))
        + match _precisionCircle map with Some _ => 1 | None => 0 end
  end.

(** ** The routes of the application

    [App] declares four routes.  Which of them a location matches is the
    router's business; the embedding starts from the matched route. *)

Inductive Route : Type :=
| RootRoute       (* path="/" *)
| LoginRoute      (* path="/login" *)
| HomeRoute       (* path="/home", under the protected group *)
| FallbackRoute.  (* path="*" *)

Inductive Element : Type :=
| LoginScreenElement
| HomeScreenElement
| Navigate (to : Route).

(** [const ProtectedRoute = () => { const token = ...; return token ?
    <Outlet /> : <Navigate to="/login" replace /> }], with the home screen
    as its outlet. *)
Definition ProtectedRoute (storage : Storage) : Element :=
  if truthy (storage !! "authToken") then HomeScreenElement
  else Navigate LoginRoute.

(** The element of each route.  [token] is what [App] read from the storage
    when it rendered; [storage] is the storage when the route renders. *)
Definition App (token : option string) (storage : Storage) (r : Route)
  : Element :=
  match r with
  | RootRoute => Navigate (if truthy token then HomeRoute else LoginRoute)
  | LoginRoute => LoginScreenElement
  | HomeRoute => ProtectedRoute storage
  | FallbackRoute => Navigate RootRoute
  end.

(** Following the [Navigate] elements, at most [fuel] of them. *)
Fixpoint settle (fuel : nat) (token : option string) (storage : Storage)
    (r : Route) : option Element :=
  match App token storage r with
  | Navigate to =>
      match fuel with
      | 0 => None
      | S fuel => settle fuel token storage to
      end
  | screen => Some screen
  end.

(** A page load: [App] reads the token from the storage it is loaded on. *)
Definition page_load (storage : Storage) (r : Route) : option Element :=
  settle 3 (storage !! "authToken") storage r.

(** ** The login server

    The handlers of the Express application.  [bcrypt] and [jsonwebtoken]
    are libraries: their functions are parameters.  A field of the request
    body is taken as the handler sees it after [const { email, password } =
    req.body], the body being an object. *)

Module Server.

(** A field of the parsed body: missing, a string, or a value of another
    type, of which the handler only tests the truthiness. *)
Inductive Field : Type :=
| Absent
| Text (s : string)
| NonText (truthy : bool).

Definition field_truthy (f : Field) : bool :=
  match f with
  | Absent => false
  | Text s => negb (JsString.is_empty s)
  | NonText b => b
  end.

Record User : Type := {
  id : nat;
  email : string;
  password : string;
  name : string;
}.

(** What [jwt.sign] is given and [jwt.verify] gives back. *)
Record Payload : Type := {
  payload_id : nat;
  payload_email : string;
  payload_name : string;
}.

Inductive Body : Type :=
| ErrorBody (error : string)
| LoginBody (token : string) (user : Payload).

Record Response : Type := { status : nat; body : Body }.

(** What a middleware ends in: a response, or [next()] with [req.user]. *)
Inductive Handled : Type :=
| Respond (r : Response)
| Next (user : Payload).

Section Handlers.

(** [bcrypt.hashSync(_, 10)] *)
Variable hashSync : string → string.

(** [await bcrypt.compare(password, hash)] *)
Variable compare : Field → string → Completion bool.

(** [jwt.sign(payload, JWT_SECRET, { expiresIn: "24h" })] *)
Variable sign : Payload → Completion string.

(** [jwt.verify(token, JWT_SECRET, callback)]: the payload, or nothing when
    the callback is given an error. *)
Variable verify : string → option Payload.

Definition users : list User :=
  [ {| id := 1; email := "test@gmail.com";
       password := hashSync "password123"; name := "Admin User" |};
    {| id := 2; email := "user@test.com";
       password := hashSync "test123"; name := "Test User" |} ].

(** [users.find((u) => u.email === email)] *)
Definition find_user (address : Field) : option User :=
  match address with
  | Text e => List.find (λ u, String.eqb (email u) e) users
  | _ => None
  end.

(** The handler of [POST /api/login]. *)
Definition login (address secret : Field) : Response :=
  let attempt : Completion Response :=
    if negb (field_truthy address) || negb (field_truthy secret) then
      Normal {| status := 400;
                body := ErrorBody "Email and password are required" |}
    else
      match find_user address with
      | None =>
          Normal {| status := 401; body := ErrorBody "Invalid credentials" |}
      | Some user =>
          match compare secret (password user) with
          | Throw e => Throw e
          | Normal false =>
              Normal {| status := 401;
                        body := ErrorBody "Invalid credentials" |}
          | Normal true =>
              let payload :=
                {| payload_id := id user; payload_email := email user;
                   payload_name := name user |} in
              match sign payload with
              | Throw e => Throw e
              | Normal token =>
                  Normal {| status := 200; body := LoginBody token payload |}
              end
          end
      end in
  match attempt with
  | Normal r => r
  | Throw _ =>
      {| status := 500; body := ErrorBody "Internal server error" |}
  end.

(** [authHeader && authHeader.split(" ")[1]] *)
Definition bearer (authorization : option string) : option string :=
  match authorization with
  | None => None
  | Some h =>
      if JsString.is_empty h then Some ""
      else JsString.split " " h !! 1
  end.

Definition authenticateToken (authorization : option string) : Handled :=
  let token := bearer authorization in
  if negb (truthy token) then
    Respond {| status := 401; body := ErrorBody "Access token required" |}
  else
    match verify (or_else token "") with
    | None =>
        Respond {| status := 403;
                   body := ErrorBody "Invalid or expired token" |}
    | Some user => Next user
    end.

End Handlers.

End Server.

(** Stand-ins for the two libraries, used where the handlers are run on
    concrete requests. *)
Module ServerSamples.

Definition hashSync (secret : string) : string := "$2b$10$" +:+ secret.

Definition compare (secret : Server.Field) (hash : string)
  : Completion bool :=
  match secret with
  | Server.Text s => Normal (String.eqb (hashSync s) hash)
  | _ => Throw TypeError
  end.

Definition sign (p : Server.Payload) : Completion string :=
  Normal ("token." +:+ Server.payload_email p).

Definition verify (token : string) : option Server.Payload :=
  if String.eqb token "token.test@gmail.com"
  then Some {| Server.payload_id := 1;
               Server.payload_email := "test@gmail.com";
               Server.payload_name := "Admin User" |}
  else None.

End ServerSamples.

(** * Properties *)

(** ** Strings *)

Lemma str_app_nil_l (s : string) : "" +:+ s = s.
Proof. reflexivity. Qed.

Lemma str_app_cons (c : ascii) (s t : string) :
  String c s +:+ t = String c (s +:+ t).
Proof. reflexivity. Qed.

Lemma str_app_nil_r (s : string) : s +:+ "" = s.
Proof. induction s as [|c s IH]; [done | by rewrite str_app_cons, IH]. Qed.

Lemma str_app_assoc (s t u : string) : (s +:+ t) +:+ u = s +:+ (t +:+ u).
Proof. induction s as [|c s IH]; [done | by rewrite !str_app_cons, IH]. Qed.

Lemma is_empty_true (s : string) : JsString.is_empty s = true ↔ s = "".
Proof. destruct s; simpl; split; congruence. Qed.

Lemma all_chars_app (p : ascii → bool) (s t : string) :
  JsString.all_chars p (s +:+ t)
  = JsString.all_chars p s && JsString.all_chars p t.
Proof.
  induction s as [|c s IH]; [done|].
  rewrite str_app_cons. simpl. rewrite IH. by rewrite andb_assoc.
Qed.

Lemma all_chars_impl (p q : ascii → bool) (s : string) :
  (∀ c, p c = true → q c = true) →
  JsString.all_chars p s = true → JsString.all_chars q s = true.
Proof.
  intros Hpq. induction s as [|c s IH]; [done|]. simpl.
  rewrite !andb_true_iff. intros [Hc Hs]. split; auto.
Qed.

Lemma split_no_char (sep : ascii) (a : string) :
  no_char sep a = true → JsString.split sep a = [a].
Proof.
  induction a as [|c a IH]; [done|]. unfold no_char. simpl.
  rewrite andb_true_iff, negb_true_iff. intros [Hc Ha].
  rewrite Hc. fold (no_char sep a) in Ha. by rewrite (IH Ha).
Qed.

Lemma no_char_cons (sep c : ascii) (a : string) :
  no_char sep (String c a) = negb (Ascii.eqb c sep) && no_char sep a.
Proof. reflexivity. Qed.

Lemma split_app_sep (sep : ascii) (a r : string) :
  no_char sep a = true →
  JsString.split sep (a +:+ String sep r) = a :: JsString.split sep r.
Proof.
  induction a as [|c a IH].
  - intros _. rewrite str_app_nil_l. simpl. by rewrite Ascii.eqb_refl.
  - rewrite no_char_cons, andb_true_iff, negb_true_iff. intros [Hc Ha].
    rewrite str_app_cons. simpl. rewrite Hc. by rewrite (IH Ha).
Qed.

Lemma prefixed_cons (sep : ascii) (x : string) (r : list string) :
  prefixed sep (x :: r) = String sep (unsplit sep (x :: r)).
Proof. reflexivity. Qed.

Lemma unsplit_split (sep : ascii) (s : string) :
  unsplit sep (JsString.split sep s) = s.
Proof.
  induction s as [|c s IH]; [done|]. simpl.
  destruct (Ascii.eqb c sep) eqn:Hc.
  - apply Ascii.eqb_eq in Hc. subst c.
    destruct (JsString.split sep s) as [|a r] eqn:E.
    + simpl in IH. subst s. done.
    + unfold unsplit at 1. rewrite str_app_nil_l, prefixed_cons. by rewrite IH.
  - destruct (JsString.split sep s) as [|a r] eqn:E.
    + simpl in IH. by subst s.
    + simpl in *. rewrite str_app_cons. by rewrite IH.
Qed.

Lemma split_unsplit (sep : ascii) (l : list string) :
  l ≠ [] → forallb (no_char sep) l = true →
  JsString.split sep (unsplit sep l) = l.
Proof.
  induction l as [|a r IH]; [done|]. intros _. simpl.
  rewrite andb_true_iff. intros [Ha Hr].
  destruct r as [|b r].
  - simpl. rewrite str_app_nil_r. by apply split_no_char.
  - rewrite prefixed_cons, (split_app_sep _ _ _ Ha). f_equal. by apply IH.
Qed.

Lemma suffixed_unsplit (sep : ascii) (l : list string) (x : string) :
  suffixed sep l +:+ x = unsplit sep (l ++ [x]).
Proof.
  induction l as [|y l IH].
  - simpl. by rewrite str_app_nil_l, str_app_nil_r.
  - simpl suffixed. rewrite !str_app_assoc, IH.
    destruct l as [|z l]; simpl; by rewrite ?str_app_nil_l, ?str_app_nil_r.
Qed.

(** ** Regular expressions: running a pattern decides its language *)

Lemma residuals_sound (r : regex) :
  ∀ s t, In t (residuals r s) → ∃ p, s = p +:+ t ∧ matches r p.
Proof.
  induction r as [|p|r1 IH1 r2 IH2|r1 IH1 r2 IH2]; intros s t; simpl.
  - intros [<-|[]]. exists "". split; [done | constructor].
  - destruct s as [|c s]; [done|]. destruct (p c) eqn:Hp; [|done].
    intros [<-|[]]. exists (String c ""). split; [done | by constructor].
  - rewrite in_flat_map. intros (u & Hu & Ht).
    destruct (IH1 _ _ Hu) as (p1 & -> & H1).
    destruct (IH2 _ _ Ht) as (p2 & -> & H2).
    exists (p1 +:+ p2). split; [by rewrite str_app_assoc | by constructor].
  - rewrite in_app_iff. intros [H|H].
    + destruct (IH1 _ _ H) as (p & -> & Hp). exists p. split; [done|].
      by apply MAltL.
    + destruct (IH2 _ _ H) as (p & -> & Hp). exists p. split; [done|].
      by apply MAltR.
Qed.

Lemma residuals_complete (r : regex) (p : string) :
  matches r p → ∀ t, In t (residuals r (p +:+ t)).
Proof.
  induction 1 as [|q c Hq|r1 r2 s1 s2 _ IH1 _ IH2|r1 r2 s _ IH|r1 r2 s _ IH];
    intros t; simpl.
  - by left.
  - rewrite Hq. by left.
  - rewrite in_flat_map. exists (s2 +:+ t). rewrite str_app_assoc. auto.
  - rewrite in_app_iff. auto.
  - rewrite in_app_iff. auto.
Qed.

Lemma test_matches (r : regex) (s : string) :
  test r s = true ↔ matches r s.
Proof.
  unfold test. rewrite existsb_exists. split.
  - intros (t & Ht & He). apply is_empty_true in He. subst t.
    destruct (residuals_sound _ _ _ Ht) as (p & -> & Hp).
    by rewrite str_app_nil_r.
  - intros H. exists "". split; [|done].
    rewrite <- (str_app_nil_r s) at 1. by apply residuals_complete.
Qed.

Lemma matches_rep_prefixed (sep : ascii) (item : regex) (n : nat) (s : string) :
  matches (Rep n (Seq (Lit sep) item)) s ↔
  ∃ l, length l = n ∧ Forall (matches item) l ∧ s = prefixed sep l.
Proof.
  revert s. induction n as [|n IH]; intros s; simpl.
  - split.
    + inversion 1. by exists [].
    + intros (l & Hl & _ & ->). destruct l; [constructor | done].
  - split.
    + inversion 1 as [| |? ? s1 s2 H1 H2| |]; subst.
      inversion H1 as [| |? ? u1 u2 Hu1 Hu2| |]; subst.
      inversion Hu1 as [|? c Hc| | |]; subst.
      apply Ascii.eqb_eq in Hc. subst c.
      apply IH in H2 as (l & Hl & Hall & ->).
      exists (u2 :: l). simpl. split; [by rewrite Hl|].
      split; [by constructor | done].
    + intros (l & Hl & Hall & ->). destruct l as [|x l]; [done|].
      inversion Hall; subst. simpl. constructor.
      * change (String sep x) with (String sep "" +:+ x).
        constructor; [|done]. constructor. apply Ascii.eqb_refl.
      * apply IH. exists l. split; [by inversion Hl | done].
Qed.

Lemma matches_rep_suffixed (sep : ascii) (item : regex) (n : nat) (s : string) :
  matches (Rep n (Seq item (Lit sep))) s ↔
  ∃ l, length l = n ∧ Forall (matches item) l ∧ s = suffixed sep l.
Proof.
  revert s. induction n as [|n IH]; intros s; simpl.
  - split.
    + inversion 1. by exists [].
    + intros (l & Hl & _ & ->). destruct l; [constructor | done].
  - split.
    + inversion 1 as [| |? ? s1 s2 H1 H2| |]; subst.
      inversion H1 as [| |? ? u1 u2 Hu1 Hu2| |]; subst.
      inversion Hu2 as [|? c Hc| | |]; subst.
      apply Ascii.eqb_eq in Hc. subst c.
      apply IH in H2 as (l & Hl & Hall & ->).
      exists (u1 :: l). simpl. split; [by rewrite Hl|].
      split; [by constructor | done].
    + intros (l & Hl & Hall & ->). destruct l as [|x l]; [done|].
      inversion Hall; subst. simpl. constructor.
      * constructor; [done|]. constructor. apply Ascii.eqb_refl.
      * apply IH. exists l. split; [by inversion Hl | done].
Qed.

(** ** What the two patterns accept *)

Lemma code_inj (c d : ascii) : JsString.code c = JsString.code d → c = d.
Proof.
  unfold JsString.code. intros H.
  rewrite <- (ascii_nat_embedding c), <- (ascii_nat_embedding d).
  by rewrite H.
Qed.

Lemma range_spec (lo hi c : ascii) :
  range lo hi c = true ↔
  JsString.code lo ≤ JsString.code c ∧ JsString.code c ≤ JsString.code hi.
Proof. unfold range. by rewrite andb_true_iff, !Nat.leb_le. Qed.

Lemma digit_spec (c : ascii) :
  digit c = true ↔ 48 ≤ JsString.code c ∧ JsString.code c ≤ 57.
Proof. unfold digit. by rewrite range_spec. Qed.

Lemma lit_eq (c d : ascii) : Ascii.eqb c d = true → d = c.
Proof. intros H. by apply Ascii.eqb_eq in H. Qed.

Lemma matches_lit (c : ascii) : matches (Lit c) (String c "").
Proof. constructor. apply Ascii.eqb_refl. Qed.

Lemma matches_seq (r1 r2 : regex) (s1 s2 s : string) :
  matches r1 s1 → matches r2 s2 → s = s1 +:+ s2 → matches (Seq r1 r2) s.
Proof. intros H1 H2 ->. by constructor. Qed.

Lemma matches_one (p : ascii → bool) (c : ascii) :
  p c = true → matches (Rep 1 (Class p)) (String c "").
Proof.
  intros H. apply (matches_seq _ _ (String c "") ""); [| constructor | done].
  by constructor.
Qed.

(** Inversion of a match, down to the characters. *)
Ltac invert_matches :=
  repeat match goal with
    | H : matches Eps _ |- _ => inversion H; clear H; subst
    | H : matches (Class _) _ |- _ => inversion H; clear H; subst
    | H : matches (Seq _ _) _ |- _ => inversion H; clear H; subst
    | H : matches (Alt _ _) _ |- _ => inversion H; clear H; subst
    | H : matches (Opt _) _ |- _ => unfold Opt in H
    | H : matches (Lit _) _ |- _ => unfold Lit in H
    end.

(** Evaluation of the codes of literal characters. *)
Ltac eval_codes :=
  unfold JsString.code in *;
  repeat match goal with
    | H : context [nat_of_ascii (Ascii ?a ?b ?c ?d ?e ?f ?g ?h)] |- _ =>
        let v := eval vm_compute in (nat_of_ascii (Ascii a b c d e f g h)) in
        change (nat_of_ascii (Ascii a b c d e f g h)) with v in H
    | |- context [nat_of_ascii (Ascii ?a ?b ?c ?d ?e ?f ?g ?h)] =>
        let v := eval vm_compute in (nat_of_ascii (Ascii a b c d e f g h)) in
        change (nat_of_ascii (Ascii a b c d e f g h)) with v
    end.

Ltac reflect_chars :=
  repeat match goal with
    | H : Ascii.eqb _ _ = true |- _ => apply lit_eq in H; subst
    | H : digit _ = true |- _ => apply digit_spec in H
    | H : range _ _ _ = true |- _ => apply range_spec in H
    end.

Lemma octet_ok_digits (s : string) :
  octet_ok s = true → JsString.all_chars digit s = true.
Proof. unfold octet_ok. rewrite andb_true_iff. tauto. Qed.

Lemma octet_matches (s : string) : matches octet_re s ↔ octet_ok s = true.
Proof.
  split.
  - unfold octet_re, Lit, Opt, RepRange. simpl. intros H.
    invert_matches; unfold octet_ok, decimal_value; simpl;
      repeat match goal with
        | H : ?p ?c = true |- context [?p ?c] => rewrite H
        end; simpl; try done;
      reflect_chars;
      rewrite ?andb_true_iff, ?N.leb_le; unfold JsNumber.digit_value;
      simpl; repeat split; try apply digit_spec; eval_codes; lia.
  - unfold octet_ok, decimal_value.
    destruct s as [|c1 [|c2 [|c3 [|c4 s]]]]; simpl;
      rewrite ?andb_true_r, ?andb_false_r; try done;
      rewrite ?andb_true_iff, ?N.leb_le; unfold JsNumber.digit_value.
    + intros H1.
      do 2 apply MAltR.
      apply (matches_seq _ _ "" (String c1 "")); [apply MAltR, MEps| |done].
      apply (matches_seq _ _ (String c1 "") ""); [by apply matches_one| |].
      * apply MAltR, MEps.
      * by rewrite str_app_nil_r.
    + intros [H1 H2].
      do 2 apply MAltR.
      apply (matches_seq _ _ "" (String c1 (String c2 "")));
        [apply MAltR, MEps| |done].
      apply (matches_seq _ _ (String c1 "") (String c2 ""));
        [by apply matches_one| |done].
      apply MAltL. by apply matches_one.
    + intros [[H1 [H2 H3]] [Hlo Hhi]].
      pose proof H1 as D1. pose proof H2 as D2. pose proof H3 as D3.
      apply digit_spec in D1, D2, D3. unfold octet_re.
      assert (JsString.code c1 = 49 ∨ JsString.code c1 = 50) as [E|E] by lia.
      * apply (code_inj c1 "1") in E. subst c1.
        do 2 apply MAltR.
        apply (matches_seq _ _ "1" (String c2 (String c3 "")));
          [apply MAltL, matches_lit| |done].
        apply (matches_seq _ _ (String c2 "") (String c3 ""));
          [by apply matches_one| |done].
        apply MAltL. by apply matches_one.
      * assert (JsString.code c2 ≤ 52 ∨
                (JsString.code c2 = 53 ∧ JsString.code c3 ≤ 53)) as [L|[L1 L2]]
          by lia.
        -- apply (code_inj c1 "2") in E. subst c1.
           apply MAltR, MAltL.
           apply (matches_seq _ _ "2" (String c2 (String c3 "")));
             [apply matches_lit| |done].
           apply (matches_seq _ _ (String c2 "") (String c3 ""));
             [| by constructor | done].
           constructor. apply range_spec. eval_codes. lia.
        -- apply (code_inj c1 "2") in E. apply (code_inj c2 "5") in L1.
           subst c1 c2.
           apply MAltL.
           apply (matches_seq _ _ "2" (String "5" (String c3 "")));
             [apply matches_lit| |done].
           apply (matches_seq _ _ "5" (String c3 ""));
             [apply matches_lit| |done].
           constructor. apply range_spec. eval_codes. lia.
Qed.

Lemma hextet_matches (s : string) : matches hextet_re s ↔ hextet_ok s = true.
Proof.
  split.
  - unfold hextet_re, RepRange. simpl. intros H.
    invert_matches; unfold hextet_ok; simpl;
      repeat match goal with
        | H : ?p ?c = true |- context [?p ?c] => rewrite H
        end; done.
  - unfold hextet_ok, hextet_re, RepRange.
    destruct s as [|c1 [|c2 [|c3 [|c4 [|c5 s]]]]]; simpl;
      rewrite ?andb_true_r, ?andb_false_r; try done;
      rewrite ?andb_true_iff.
    + intros H1.
      apply (matches_seq _ _ (String c1 "") ""); [by apply matches_one| |].
      * apply MAltR, MEps.
      * by rewrite str_app_nil_r.
    + intros [H1 H2].
      apply (matches_seq _ _ (String c1 "") (String c2 ""));
        [by apply matches_one| |done].
      apply MAltL.
      apply (matches_seq _ _ (String c2 "") ""); [by constructor| |done].
      apply MAltR, MEps.
    + intros [H1 [H2 H3]].
      apply (matches_seq _ _ (String c1 "") (String c2 (String c3 "")));
        [by apply matches_one| |done].
      apply MAltL.
      apply (matches_seq _ _ (String c2 "") (String c3 ""));
        [by constructor| |done].
      apply MAltL.
      apply (matches_seq _ _ (String c3 "") ""); [by constructor| |done].
      apply MAltR, MEps.
    + intros [H1 [H2 [H3 H4]]].
      apply (matches_seq _ _ (String c1 "")
               (String c2 (String c3 (String c4 ""))));
        [by apply matches_one| |done].
      apply MAltL.
      apply (matches_seq _ _ (String c2 "") (String c3 (String c4 "")));
        [by constructor| |done].
      apply MAltL.
      apply (matches_seq _ _ (String c3 "") (String c4 ""));
        [by constructor| |done].
      apply MAltL. by apply matches_one.
Qed.

Lemma digit_no_dot (c : ascii) : digit c = true → negb (Ascii.eqb c ".") = true.
Proof.
  intros H. apply digit_spec in H. apply negb_true_iff, Ascii.eqb_neq.
  intros ->. eval_codes. lia.
Qed.

Lemma hexdigit_no_colon (c : ascii) :
  hexdigit c = true → negb (Ascii.eqb c ":") = true.
Proof.
  unfold hexdigit. rewrite !orb_true_iff, !range_spec.
  intros H. apply negb_true_iff, Ascii.eqb_neq. intros ->. eval_codes. lia.
Qed.

Lemma octet_no_dot (s : string) : octet_ok s = true → no_char "." s = true.
Proof.
  intros H. apply octet_ok_digits in H.
  revert H. apply all_chars_impl, digit_no_dot.
Qed.

Lemma hextet_no_colon (s : string) : hextet_ok s = true → no_char ":" s = true.
Proof.
  unfold hextet_ok. rewrite !andb_true_iff. intros [[H _] _].
  revert H. apply all_chars_impl, hexdigit_no_colon.
Qed.

Lemma forallb_impl {A : Type} (p q : A → bool) (l : list A) :
  (∀ x, p x = true → q x = true) → forallb p l = true → forallb q l = true.
Proof.
  intros Hpq. rewrite !forallb_forall. auto.
Qed.

Lemma Forall_forallb {A : Type} (P : A → Prop) (p : A → bool) (l : list A) :
  (∀ x, P x ↔ p x = true) → Forall P l ↔ forallb p l = true.
Proof.
  intros H. rewrite forallb_forall, Forall_forall.
  split; intros Hl x Hx.
  - apply H, Hl. by apply list_elem_of_In.
  - apply H, Hl. by apply list_elem_of_In.
Qed.

(** The IPv4 pattern accepts exactly four dot-separated pieces that the
    octet pattern accepts. *)
Lemma ipv4_test_shape (s : string) : test IP_REGEX.ipv4 s = ipv4_shape s.
Proof.
  apply eq_true_iff_eq. rewrite test_matches.
  unfold IP_REGEX.ipv4, ipv4_shape, separated. split.
  - inversion 1 as [| |? ? a t Ha Ht| |]; subst.
    apply (matches_rep_prefixed "." octet_re 3) in Ht as (l & Hl & Hall & ->).
    apply octet_matches in Ha.
    apply (Forall_forallb _ octet_ok) in Hall; [|apply octet_matches].
    change (a +:+ prefixed "." l) with (unsplit "." (a :: l)).
    rewrite split_unsplit; [|done|].
    + simpl. by rewrite Hl, Ha, Hall.
    + simpl. rewrite (octet_no_dot _ Ha). simpl.
      revert Hall. apply forallb_impl, octet_no_dot.
  - rewrite andb_true_iff, Nat.eqb_eq. intros [Hlen Hall].
    rewrite <- (unsplit_split "." s).
    destruct (JsString.split "." s) as [|a l]; [done|].
    simpl in Hall. apply andb_true_iff in Hall as [Ha Hl].
    simpl. constructor; [by apply octet_matches|].
    apply (matches_rep_prefixed "." octet_re 3).
    exists l. split; [by inversion Hlen|].
    split; [|done]. by apply (Forall_forallb _ octet_ok); [apply octet_matches|].
Qed.

(** The IPv6 pattern accepts exactly eight colon-separated pieces of one to
    four hexadecimal digits, and the text [::1]. *)
Lemma ipv6_test_shape (s : string) : test IP_REGEX.ipv6 s = ipv6_shape s.
Proof.
  apply eq_true_iff_eq. rewrite test_matches.
  unfold IP_REGEX.ipv6, ipv6_shape, separated. rewrite orb_true_iff. split.
  - intros H. inversion H as [| | |? ? ? Hfull|? ? ? Hloop]; clear H; subst.
    + left. inversion Hfull as [| |? ? p g Hp Hg| |]; subst.
      apply (matches_rep_suffixed ":" hextet_re 7) in Hp
        as (l & Hl & Hall & ->).
      apply hextet_matches in Hg.
      apply (Forall_forallb _ hextet_ok) in Hall; [|apply hextet_matches].
      assert (forallb hextet_ok (l ++ [g]) = true) as Hok.
      { rewrite forallb_app. simpl. by rewrite Hall, Hg. }
      rewrite suffixed_unsplit, split_unsplit.
      * rewrite Hok, length_app, Hl. done.
      * by destruct l.
      * revert Hok. apply forallb_impl, hextet_no_colon.
    + right. unfold Lit in Hloop. invert_matches. reflect_chars. done.
  - intros [Hfull|Hloop].
    + apply andb_true_iff in Hfull as [Hlen Hall]. apply Nat.eqb_eq in Hlen.
      rewrite <- (unsplit_split ":" s).
      destruct (JsString.split ":" s)
        as [|g1 [|g2 [|g3 [|g4 [|g5 [|g6 [|g7 [|g8 [|g9 ps]]]]]]]]];
        try done.
      change [g1; g2; g3; g4; g5; g6; g7; g8]
        with ([g1; g2; g3; g4; g5; g6; g7] ++ [g8])%list in *.
      rewrite forallb_app in Hall. apply andb_true_iff in Hall as [Hl Hg].
      rewrite <- suffixed_unsplit. apply MAltL. constructor.
      * apply (matches_rep_suffixed ":" hextet_re 7).
        exists [g1; g2; g3; g4; g5; g6; g7]. split; [done|]. split; [|done].
        by apply (Forall_forallb _ hextet_ok); [apply hextet_matches|].
      * apply hextet_matches. simpl in Hg. by rewrite andb_true_r in Hg.
    + apply String.eqb_eq in Hloop. subst s. apply MAltR.
      apply (matches_seq _ _ ":" ":1"); [apply matches_lit| |done].
      apply (matches_seq _ _ ":" "1"); [apply matches_lit| |done].
      apply matches_lit.
Qed.

Lemma all_chars_prefixed (p : ascii → bool) (sep : ascii) (l : list string) :
  p sep = true → forallb (JsString.all_chars p) l = true →
  JsString.all_chars p (prefixed sep l) = true.
Proof.
  intros Hsep. induction l as [|x l IH]; [done|]. simpl.
  rewrite andb_true_iff. intros [Hx Hl].
  rewrite all_chars_app. simpl. by rewrite Hsep, Hx, (IH Hl).
Qed.

Lemma all_chars_unsplit (p : ascii → bool) (sep : ascii) (l : list string) :
  p sep = true → forallb (JsString.all_chars p) l = true →
  JsString.all_chars p (unsplit sep l) = true.
Proof.
  intros Hsep. destruct l as [|a l]; [done|]. simpl.
  rewrite andb_true_iff. intros [Ha Hl].
  by rewrite all_chars_app, Ha, all_chars_prefixed.
Qed.

Lemma ipv4_shape_no_colon (s : string) :
  ipv4_shape s = true → no_char ":" s = true.
Proof.
  unfold ipv4_shape, separated. rewrite andb_true_iff. intros [_ Hall].
  rewrite <- (unsplit_split "." s). apply all_chars_unsplit; [done|].
  revert Hall. apply forallb_impl. intros x Hx. apply octet_ok_digits in Hx.
  revert Hx. apply all_chars_impl. intros c Hc. apply digit_spec in Hc.
  apply negb_true_iff, Ascii.eqb_neq. intros ->. eval_codes. lia.
Qed.

Lemma ipv6_shape_colon (s : string) :
  ipv6_shape s = true → no_char ":" s = false.
Proof.
  unfold ipv6_shape, separated. rewrite orb_true_iff, andb_true_iff.
  intros [[Hlen _]|Hloop].
  - destruct (no_char ":" s) eqn:E; [|done].
    by rewrite (split_no_char _ _ E) in Hlen.
  - apply String.eqb_eq in Hloop. by subst s.
Qed.

(** No text passes both patterns. *)
Lemma ipv4_ipv6_disjoint (s : string) :
  test IP_REGEX.ipv4 s = true → test IP_REGEX.ipv6 s = false.
Proof.
  rewrite ipv4_test_shape, ipv6_test_shape. intros H4.
  apply ipv4_shape_no_colon in H4.
  destruct (ipv6_shape s) eqn:H6; [|done].
  apply ipv6_shape_colon in H6. congruence.
Qed.

(** ** Address validation *)

Lemma classify_IPv4 (text : string) :
  classify text = IPv4 ↔ ipv4_shape (JsString.trim text) = true.
Proof.
  unfold classify. rewrite <- ipv4_test_shape.
  destruct (JsString.is_empty (JsString.trim text)) eqn:E.
  - apply is_empty_true in E. rewrite E. by split.
  - destruct (test IP_REGEX.ipv4 _); [done|].
    destruct (test IP_REGEX.ipv6 _); by split.
Qed.

Lemma classify_IPv6 (text : string) :
  classify text = IPv6 ↔ ipv6_shape (JsString.trim text) = true.
Proof.
  unfold classify. rewrite <- ipv6_test_shape.
  destruct (JsString.is_empty (JsString.trim text)) eqn:E.
  - apply is_empty_true in E. rewrite E. by split.
  - destruct (test IP_REGEX.ipv4 _) eqn:E4.
    + rewrite (ipv4_ipv6_disjoint _ E4). by split.
    + destruct (test IP_REGEX.ipv6 _); by split.
Qed.

Lemma trimStart_whitespace (w : string) :
  JsString.all_chars JsString.is_whitespace w = true →
  JsString.trimStart w = "".
Proof.
  induction w as [|c w IH]; [done|]. simpl.
  rewrite andb_true_iff. intros [Hc Hw]. rewrite Hc. auto.
Qed.

Lemma trimStart_app_l (w s : string) :
  JsString.all_chars JsString.is_whitespace w = true →
  JsString.trimStart (w +:+ s) = JsString.trimStart s.
Proof.
  induction w as [|c w IH]; [done|]. simpl.
  rewrite andb_true_iff. intros [Hc Hw]. rewrite Hc. auto.
Qed.

Lemma trimStart_app_r (s w : string) :
  JsString.all_chars JsString.is_whitespace w = true →
  JsString.trimStart (s +:+ w)
  = if JsString.is_empty (JsString.trimStart s) then ""
    else JsString.trimStart s +:+ w.
Proof.
  intros Hw. induction s as [|c s IH].
  - rewrite str_app_nil_l. simpl. by apply trimStart_whitespace.
  - rewrite str_app_cons. simpl. destruct (JsString.is_whitespace c); [done|].
    simpl. by rewrite str_app_cons.
Qed.

Lemma trimEnd_whitespace (w : string) :
  JsString.all_chars JsString.is_whitespace w = true →
  JsString.trimEnd w = "".
Proof.
  induction w as [|c w IH]; [done|]. simpl.
  rewrite andb_true_iff. intros [Hc Hw]. by rewrite (IH Hw), Hc.
Qed.

Lemma trimEnd_app_r (s w : string) :
  JsString.all_chars JsString.is_whitespace w = true →
  JsString.trimEnd (s +:+ w) = JsString.trimEnd s.
Proof.
  intros Hw. induction s as [|c s IH].
  - rewrite str_app_nil_l. simpl. by apply trimEnd_whitespace.
  - rewrite str_app_cons. simpl. by rewrite IH.
Qed.

(** White space around a text does not change what [trim] gives. *)
Lemma trim_surrounded (w1 s w2 : string) :
  JsString.all_chars JsString.is_whitespace w1 = true →
  JsString.all_chars JsString.is_whitespace w2 = true →
  JsString.trim (w1 +:+ s +:+ w2) = JsString.trim s.
Proof.
  intros H1 H2. unfold JsString.trim.
  rewrite (trimStart_app_l _ _ H1), (trimStart_app_r _ _ H2).
  destruct (JsString.is_empty (JsString.trimStart s)) eqn:E.
  - apply is_empty_true in E. by rewrite E.
  - by apply trimEnd_app_r.
Qed.

Lemma classify_trim (text : string) :
  classify text = match JsString.trim text with
                  | "" => Invalid
                  | ip => if test IP_REGEX.ipv4 ip then IPv4
                          else if test IP_REGEX.ipv6 ip then IPv6
                          else Invalid
                  end.
Proof. unfold classify. by destruct (JsString.trim text). Qed.

Example classify_dotted_quad : classify "8.8.8.8" = IPv4.
Proof. reflexivity. Qed.

Example classify_padded : classify "  255.01.199.0 " = IPv4.
Proof. reflexivity. Qed.

Example classify_out_of_range : classify "256.1.1.1" = Invalid.
Proof. reflexivity. Qed.

Example classify_full_ipv6 : classify "2001:db8:0:0:0:0:2:1" = IPv6.
Proof. reflexivity. Qed.

Example classify_compressed_ipv6 : classify "2001:db8::2:1" = Invalid.
Proof. reflexivity. Qed.

Example classify_other_loopback : classify "::2" = Invalid.
Proof. reflexivity. Qed.

Example parseFloat_examples :
  JsNumber.parseFloat "12.3" = Decimal false 123 (-1) ∧
  JsNumber.parseFloat " -45.6km" = Decimal true 456 (-1) ∧
  JsNumber.parseFloat "1e" = Decimal false 1 0 ∧
  JsNumber.parseFloat ".5e-3" = Decimal false 5 (-4) ∧
  JsNumber.parseFloat "-Infinity" = Infinity true ∧
  JsNumber.parseFloat "." = NaN ∧
  JsNumber.parseFloat "" = NaN ∧
  JsNumber.parseFloat "unknown" = NaN.
Proof. repeat split; reflexivity. Qed.

Example split_examples :
  JsString.split "," "12.3,-45.6" = ["12.3"; "-45.6"] ∧
  JsString.split "," "" = [""] ∧
  JsString.split "," "1,2,3" = ["1"; "2"; "3"] ∧
  JsString.split "," "1," = ["1"; ""].
Proof. repeat split; reflexivity. Qed.

(** C8, as the specification states it, fails on the code: read by standard
    decimal parsing, [012] is a decimal octet in [0,255], yet [012.1.1.1] is
    refused; read without leading zeros, [01] is no octet, yet [01.1.1.1]
    is accepted. *)
Lemma classify_octet_counterexample :
  (spec_ipv4 spec_octet_decimal "012.1.1.1" = true ∧
   classify "012.1.1.1" = Invalid) ∧
  (spec_ipv4 spec_octet_canonical "01.1.1.1" = false ∧
   classify "01.1.1.1" = IPv4).
Proof. repeat split; reflexivity. Qed.

(** C8, amended: [classify] is a total function into the three classes that
    depends on its input only through the trimmed text; it gives IPv4 on
    [8.8.8.8], IPv6 on [::1] and Invalid on the empty text and on
    [not-an-ip]; no text passes both patterns; the class is IPv4 exactly
    when the trimmed text is four dot-separated pieces, each of one or two
    decimal digits or of three decimal digits that read as 100 to 255; and
    it is IPv6 exactly when the trimmed text is eight colon-separated
    pieces of one to four hexadecimal digits, or is [::1]. *)
Theorem classify_spec :
  (∀ text, classify text = IPv4 ∨ classify text = IPv6 ∨
           classify text = Invalid) ∧
  (∀ w1 text w2,
     JsString.all_chars JsString.is_whitespace w1 = true →
     JsString.all_chars JsString.is_whitespace w2 = true →
     classify (w1 +:+ text +:+ w2) = classify text) ∧
  classify "8.8.8.8" = IPv4 ∧
  classify "::1" = IPv6 ∧
  classify "" = Invalid ∧
  classify "not-an-ip" = Invalid ∧
  (∀ ip, test IP_REGEX.ipv4 ip = true → test IP_REGEX.ipv6 ip = false) ∧
  (∀ text, classify text = IPv4 ↔ ipv4_shape (JsString.trim text) = true) ∧
  (∀ text, classify text = IPv6 ↔ ipv6_shape (JsString.trim text) = true).
Proof.
  split; [|split; [|repeat split]].
  - intros text. destruct (classify text); auto.
  - intros w1 text w2 H1 H2. unfold classify.
    by rewrite (trim_surrounded _ _ _ H1 H2).
  - apply ipv4_ipv6_disjoint.
  - by apply classify_IPv4.
  - by apply classify_IPv4.
  - by apply classify_IPv6.
  - by apply classify_IPv6.
Qed.

(** An instance of the trimming clause of [classify_spec]. *)
Lemma classify_spec_witness :
  JsString.all_chars JsString.is_whitespace "  " = true ∧
  JsString.all_chars JsString.is_whitespace " " = true ∧
  classify ("  " +:+ "8.8.8.8" +:+ " ") = classify "8.8.8.8".
Proof.
  split; [reflexivity|]. split; [reflexivity|].
  apply (proj1 (proj2 classify_spec)); reflexivity.
Defined.

(** ** History store *)

Lemma recordLookup_cons (q : string) (e : HistoryEntry)
    (prev : list HistoryEntry) :
  recordLookup q e prev = e :: take 49 (filter (λ h, ip h ≠ q) prev).
Proof. reflexivity. Qed.

Lemma filter_none {A : Type} (P : A → Prop) `{!∀ x, Decision (P x)}
    (l : list A) :
  Forall (λ x, ¬ P x) l → filter P l = [].
Proof.
  induction 1 as [|x l Hx _ IH]; [done|]. by rewrite filter_cons_False.
Qed.

Lemma filter_all {A : Type} (P : A → Prop) `{!∀ x, Decision (P x)}
    (l : list A) :
  Forall P l → filter P l = l.
Proof.
  induction 1 as [|x l Hx _ IH]; [done|]. by rewrite filter_cons_True, IH.
Qed.

Lemma others_differ (q : string) (prev : list HistoryEntry) (n : nat) :
  Forall (λ h, ip h ≠ q) (take n (filter (λ h, ip h ≠ q) prev)).
Proof.
  apply Forall_forall. intros h Hh.
  pose proof (elem_of_sublist _ _ _ Hh (sublist_take _ n)) as Hh'.
  by apply list_elem_of_filter in Hh' as [? _].
Qed.

Lemma recordLookup_ok (e : HistoryEntry) (prev : list HistoryEntry) :
  history_ok prev → history_ok (recordLookup (ip e) e prev).
Proof.
  intros [Hdup Hlen]. split.
  - rewrite recordLookup_cons, fmap_cons. apply NoDup_cons. split.
    + intros Hin. apply list_elem_of_fmap in Hin as (h & Heq & Hh).
      pose proof (others_differ (ip e) prev 49) as Hall.
      rewrite Forall_forall in Hall. by apply (Hall h Hh).
    + apply (sublist_NoDup _ (ip <$> prev)); [done|].
      apply fmap_sublist. etrans; [apply sublist_take | apply sublist_filter].
  - unfold recordLookup. rewrite length_take. lia.
Qed.

Lemma recordLookups_ok (calls : list HistoryEntry) (h : list HistoryEntry) :
  history_ok h → history_ok (recordLookups calls h).
Proof.
  revert h. induction calls as [|e calls IH]; intros h Hh; [done|].
  apply IH. by apply recordLookup_ok.
Qed.

(** C1: starting from the empty history, after any sequence of
    [recordLookup] calls no two entries of the history have the same [ip],
    and the history has at most 50 entries. *)
Theorem history_invariant (calls : list HistoryEntry) :
  NoDup (ip <$> recordLookups calls []) ∧
  length (recordLookups calls []) ≤ 50.
Proof.
  apply (recordLookups_ok calls []). split; [constructor | simpl; lia].
Qed.

(** C4: when the [ip] of the entry already occurs in the history,
    [recordLookup] gives a history whose first entry is the new entry, with
    its data and timestamp; no other entry has that [ip]; and the other
    entries are those of the previous history, in their previous order
    (all of them when the previous history had at most 50 entries, the
    first 49 of them otherwise). *)
Theorem dedup_reorder (prev : list HistoryEntry) (e : HistoryEntry) :
  ip e ∈ ip <$> prev →
  recordLookup (ip e) e prev !! 0 = Some e ∧
  filter (λ h, ip h = ip e) (recordLookup (ip e) e prev) = [e] ∧
  drop 1 (recordLookup (ip e) e prev)
  = take 49 (filter (λ h, ip h ≠ ip e) prev) ∧
  drop 1 (recordLookup (ip e) e prev) `sublist_of` prev ∧
  (length prev ≤ 50 →
   drop 1 (recordLookup (ip e) e prev) = filter (λ h, ip h ≠ ip e) prev).
Proof.
  intros Hin. rewrite recordLookup_cons. simpl.
  split; [done|]. split; [|split; [done|split]].
  - rewrite filter_cons_True by done. f_equal.
    apply filter_none. eapply Forall_impl; [apply others_differ|].
    intros h Hh. by simpl.
  - unfold drop. etrans; [apply sublist_take | apply sublist_filter].
  - intros Hlen. unfold drop. apply take_ge.
    apply list_elem_of_fmap in Hin as (h & Heq & Hh).
    assert (length (filter (λ h, ip h ≠ ip e) prev) < length prev); [|lia].
    apply (length_filter_lt _ _ h); [done|]. intros Hne. by apply Hne.
Qed.

(** An instance of [dedup_reorder]: 1.1.1.1 is looked up again while it is
    second in the history. *)
Lemma dedup_reorder_witness :
  ip Samples.new_cloudflare
    ∈ ip <$> [Samples.old_google; Samples.old_cloudflare] ∧
  recordLookup "1.1.1.1" Samples.new_cloudflare
    [Samples.old_google; Samples.old_cloudflare] !! 0
  = Some Samples.new_cloudflare.
Proof.
  assert (ip Samples.new_cloudflare
            ∈ ip <$> [Samples.old_google; Samples.old_cloudflare]) as H.
  { simpl. apply list_elem_of_further, list_elem_of_here. }
  split; [exact H|].
  exact (proj1 (dedup_reorder _ Samples.new_cloudflare H)).
Defined.

Example dedup_reorder_example :
  recordLookup "1.1.1.1" Samples.new_cloudflare
    [Samples.old_google; Samples.old_cloudflare; Samples.old_example]
  = [Samples.new_cloudflare; Samples.old_google; Samples.old_example].
Proof. reflexivity. Qed.

Lemma filter_from_sublist {A : Type} (p : A → nat → bool) (l : list A) :
  ∀ idx, filter_from p idx l `sublist_of` l.
Proof.
  induction l as [|x l IH]; intros idx; simpl; [done|].
  destruct (p x idx); [by apply sublist_skip | by apply sublist_cons].
Qed.

Lemma deleteIndices_sublist (sel : gmap nat bool) (h : list HistoryEntry) :
  deleteIndices sel h `sublist_of` h.
Proof. apply filter_from_sublist. Qed.

Lemma history_ok_sublist (h h' : list HistoryEntry) :
  h' `sublist_of` h → history_ok h → history_ok h'.
Proof.
  intros Hsub [Hdup Hlen]. split.
  - apply (sublist_NoDup _ (ip <$> h)); [done | by apply fmap_sublist].
  - apply sublist_length in Hsub. lia.
Qed.

(** ** Session controller *)

Lemma lookup_last {A : Type} (l : list A) (x : A) :
  (l ++ [x]) !! length l = Some x.
Proof. by apply list_lookup_middle. Qed.

Lemma delete_last {A : Type} (l : list A) (x : A) :
  delete (length l) (l ++ [x]) = l.
Proof. by rewrite delete_middle, app_nil_r. Qed.

Lemma classify_geo (text : string) :
  classify text ≠ Invalid → JsString.trim text ≠ "geo".
Proof.
  intros H E. apply H. rewrite classify_trim, E. reflexivity.
Qed.

Section ControllerProperties.

Variable stringify : list HistoryEntry → string.

Lemma fetchGeoFor_inflight (q : string) (s : State) :
  ∃ u, inflight (fetchGeoFor q s)
       = inflight s ++ [{| query := q; url := u |}].
Proof. unfold fetchGeoFor. simpl. eauto. Qed.

Lemma fetchGeoFor_fields (q : string) (s : State) :
  geo (fetchGeoFor q s) = geo s ∧
  search (fetchGeoFor q s) = search s ∧
  error (fetchGeoFor q s) = "" ∧
  history (fetchGeoFor q s) = history s ∧
  selectedForDelete (fetchGeoFor q s) = selectedForDelete s.
Proof. done. Qed.

(** The next request to settle is the one dispatched last. *)
Lemma settle_dispatched (q : string) (s : State) (o : Outcome) (now : string) :
  step stringify (fetchGeoFor q s) (Settle (length (inflight s)) o now)
  = fetchGeoFor_resume stringify q o now (setError "" s).
Proof.
  unfold step, fetchGeoFor. cbn [inflight setInflight setError].
  rewrite lookup_last, delete_last. cbn [query]. done.
Qed.

Lemma resume_ok_geo (q : string) (data : GeoRecord) (now : string) (s : State) :
  geo (fetchGeoFor_resume stringify q (Ok data) now s) = Some data.
Proof. unfold fetchGeoFor_resume. by destruct (negb (String.eqb q "geo")). Qed.

Lemma resume_ok_error (q : string) (data : GeoRecord) (now : string)
    (s : State) :
  error (fetchGeoFor_resume stringify q (Ok data) now s) = error s.
Proof. unfold fetchGeoFor_resume. by destruct (negb (String.eqb q "geo")). Qed.

Lemma resume_ok_history (q : string) (data : GeoRecord) (now : string)
    (s : State) :
  q ≠ "geo" →
  history (fetchGeoFor_resume stringify q (Ok data) now s)
  = recordLookup q {| ip := q; data := data; when := now |} (history s).
Proof.
  intros Hq. unfold fetchGeoFor_resume.
  apply String.eqb_neq in Hq. by rewrite Hq.
Qed.

Lemma resume_selection (q : string) (o : Outcome) (now : string) (s : State) :
  selectedForDelete (fetchGeoFor_resume stringify q o now s)
  = selectedForDelete s.
Proof.
  unfold fetchGeoFor_resume. destruct o as [data|]; [|done].
  by destruct (negb (String.eqb q "geo")).
Qed.

Lemma resume_history_ok (q : string) (o : Outcome) (now : string) (s : State) :
  history_ok (history s) →
  history_ok (history (fetchGeoFor_resume stringify q o now s)).
Proof.
  intros H. destruct o as [data|]; [|done].
  destruct (decide (q = "geo")) as [->|Hq]; [done|].
  rewrite resume_ok_history by done.
  by apply (recordLookup_ok {| ip := q; data := data; when := now |}).
Qed.

Lemma handleSearch_history (s : State) :
  history (handleSearch s) = history s.
Proof.
  unfold handleSearch.
  destruct (JsString.is_empty _); [done|]. by destruct (_ && _).
Qed.

(** Every event keeps the invariant of the history. *)
Lemma step_history_ok (s : State) (ev : Event) :
  history_ok (history s) → history_ok (history (step stringify s ev)).
Proof.
  intros H. destruct ev; simpl; try done.
  - by rewrite handleSearch_history.
  - by destruct (history s !! idx).
  - by apply (history_ok_sublist (history s)); [apply deleteIndices_sublist|].
  - split; [constructor | simpl; lia].
  - destruct (inflight s !! k); [|done]. by apply resume_history_ok.
Qed.

(** Whatever the user does and whatever the provider answers, a history that
    starts empty stays free of duplicates and within 50 entries. *)
Lemma run_history_ok (evs : list Event) (s : State) :
  history_ok (history s) → history_ok (history (run stringify s evs)).
Proof.
  revert s. induction evs as [|ev evs IH]; intros s H; [done|].
  apply IH. by apply step_history_ok.
Qed.

(** C2, amended: a successful response replaces the current GeoRecord when
    it arrives, whatever the order of dispatch; no response is discarded.
    If a lookup for [a] is dispatched, then one for [b], and the response
    for [a] arrives after the response for [b], the current GeoRecord is the
    result for [a]. *)
Theorem last_response_wins (s : State) (a b : string) (da db : GeoRecord)
    (ta tb : string) :
  let n := length (inflight s) in
  let s1 := fetchGeoFor b (fetchGeoFor a s) in
  let s2 := step stringify s1 (Settle (S n) (Ok db) tb) in
  let s3 := step stringify s2 (Settle n (Ok da) ta) in
  geo s2 = Some db ∧ geo s3 = Some da.
Proof.
  intros n s1 s2 s3.
  destruct (fetchGeoFor_inflight a s) as (ua & Ha).
  assert (S n = length (inflight (fetchGeoFor a s))) as Hn.
  { rewrite Ha, length_app. simpl. unfold n. lia. }
  assert (s2 = fetchGeoFor_resume stringify b (Ok db) tb
                 (setError "" (fetchGeoFor a s))) as E2.
  { unfold s2, s1. rewrite Hn. apply settle_dispatched. }
  split; [rewrite E2; apply resume_ok_geo|].
  unfold s3, step.
  assert (inflight s2 = inflight s ++ [{| query := a; url := ua |}]) as Hin.
  { rewrite E2, <- Ha. unfold fetchGeoFor_resume.
    by destruct (negb (String.eqb b "geo")). }
  rewrite Hin. unfold n. rewrite lookup_last. apply resume_ok_geo.
Qed.

(** An entry that is kept by [deleteIndices] is one that is not marked. *)
Lemma deleteIndices_three (sel : gmap nat bool) (h0 h1 h2 : HistoryEntry) :
  marked sel 0 = true → marked sel 1 = false → marked sel 2 = true →
  deleteIndices sel [h0; h1; h2] = [h1].
Proof.
  intros H0 H1 H2. unfold deleteIndices, filter_indexed. simpl.
  by rewrite H0, H1, H2.
Qed.

(** C9: on a history of three entries with the indices 0 and 2 marked and
    the index 1 not marked, [deleteSelected] leaves the history that holds
    the former entry of index 1 alone, and leaves no index marked. *)
Theorem deleteSelected_three (s : State) (h0 h1 h2 : HistoryEntry) :
  history s = [h0; h1; h2] →
  marked (selectedForDelete s) 0 = true →
  marked (selectedForDelete s) 1 = false →
  marked (selectedForDelete s) 2 = true →
  deleteIndices (selectedForDelete s) (history s) = [h1] ∧
  history (deleteSelected stringify s) = [h1] ∧
  selectedForDelete (deleteSelected stringify s) = ∅.
Proof.
  intros Hh H0 H1 H2. unfold deleteSelected. simpl. rewrite Hh.
  by rewrite (deleteIndices_three _ _ _ _ H0 H1 H2).
Qed.

Lemma run_two (s : State) (e1 e2 : Event) :
  run stringify s [e1; e2] = step stringify (step stringify s e1) e2.
Proof. reflexivity. Qed.

Lemma handleSearch_valid (s : State) :
  classify (search s) ≠ Invalid →
  handleSearch s = fetchGeoFor (JsString.trim (search s)) (setError "" s).
Proof.
  unfold classify, handleSearch. cbn [search setError].
  destruct (JsString.is_empty _); [done|].
  destruct (test IP_REGEX.ipv4 _); [done|].
  by destruct (test IP_REGEX.ipv6 _).
Qed.

(** C7: when a dispatched lookup fails, the current GeoRecord is left as it
    was and the error message shown to the user is set; every dispatch (a
    search that passes validation, or any other call of [fetchGeoFor])
    clears the error, and a successful response leaves it cleared, so the
    next lookup that is dispatched and succeeds ends with no error and with
    its result as the current GeoRecord. *)
Theorem lookup_failure (s : State) :
  (∀ k req now,
     inflight s !! k = Some req →
     geo (step stringify s (Settle k Failed now)) = geo s ∧
     error (step stringify s (Settle k Failed now))
     = "Unable to fetch geolocation for the provided IP." ∧
     error (step stringify s (Settle k Failed now)) ≠ "") ∧
  (∀ q, error (fetchGeoFor q s) = "") ∧
  (classify (search s) ≠ Invalid →
   error (step stringify s ClickSearch) = "" ∧
   geo (step stringify s ClickSearch) = geo s) ∧
  (∀ q data now,
     let s' := step stringify (fetchGeoFor q s)
                 (Settle (length (inflight s)) (Ok data) now) in
     error s' = "" ∧ geo s' = Some data).
Proof.
  split; [|split; [|split]].
  - intros k req now Hk. unfold step. rewrite Hk. by simpl.
  - done.
  - intros Hvalid. simpl. by rewrite (handleSearch_valid _ Hvalid).
  - intros q data now s'. unfold s'. rewrite settle_dispatched.
    by rewrite resume_ok_error, resume_ok_geo.
Qed.

(** C10: after a manual lookup succeeds, the history is the previous one
    with the entry recorded under the query that was passed to the lookup:
    the trimmed text of the search box for a search, the stored [ip] of the
    entry for a click on the history.  The entry's [ip] is that query
    whatever record the provider returned, and the entries removed as
    duplicates are those whose [ip] is that query. *)
Theorem history_key_is_query (s : State) (data : GeoRecord) (now : string) :
  (classify (search s) ≠ Invalid →
   let q := JsString.trim (search s) in
   let s' := run stringify s
               [ClickSearch; Settle (length (inflight s)) (Ok data) now] in
   history s' = recordLookup q {| ip := q; data := data; when := now |}
                  (history s) ∧
   history s' !! 0 = Some {| ip := q; data := data; when := now |}) ∧
  (∀ idx h,
     history s !! idx = Some h → ip h ≠ "geo" →
     let s' := run stringify s
                 [ClickHistory idx;
                  Settle (length (inflight s)) (Ok data) now] in
     history s' = recordLookup (ip h)
                    {| ip := ip h; data := data; when := now |} (history s) ∧
     history s' !! 0 = Some {| ip := ip h; data := data; when := now |}).
Proof.
  split.
  - intros Hvalid q s'. unfold s'. rewrite run_two.
    change (step stringify s ClickSearch) with (handleSearch s).
    rewrite (handleSearch_valid _ Hvalid).
    change (length (inflight s)) with (length (inflight (setError "" s))).
    rewrite settle_dispatched, resume_ok_history by by apply classify_geo.
    done.
  - intros idx h Hidx Hgeo s'. unfold s'. rewrite run_two.
    assert (step stringify s (ClickHistory idx)
            = fetchGeoFor (ip h) (setSearch (ip h) s)) as ->.
    { simpl. by rewrite Hidx. }
    change (length (inflight s))
      with (length (inflight (setSearch (ip h) s))).
    by rewrite settle_dispatched, resume_ok_history.
Qed.

(** The marks survive the two replacements of the history that are not a
    deletion. *)
Lemma selection_kept (s : State) :
  selectedForDelete (clearAll s) = selectedForDelete s ∧
  (∀ k o now,
     selectedForDelete (step stringify s (Settle k o now))
     = selectedForDelete s).
Proof.
  split; [done|]. intros k o now. unfold step.
  destruct (inflight s !! k); [|done]. by rewrite resume_selection.
Qed.

End ControllerProperties.

(** C2, as the specification states it, fails on the code: 8.8.8.8 is
    searched, then 1.1.1.1; the response for 1.1.1.1 arrives first and the
    response for 8.8.8.8 after it.  The current GeoRecord ends as the result
    for 8.8.8.8, the earlier dispatch. *)
Lemma last_dispatch_counterexample :
  let s :=
    run Stringify.history (initial [] ∅)
      [Change "8.8.8.8"; ClickSearch; Change "1.1.1.1"; ClickSearch;
       Settle 1 (Ok Samples.geo_cloudflare) "2025-01-02T12:00:00.000Z";
       Settle 0 (Ok Samples.geo_google) "2025-01-02T12:00:01.000Z"] in
  geo s = Some Samples.geo_google ∧ geo s ≠ Some Samples.geo_cloudflare.
Proof. split; [reflexivity | discriminate]. Qed.

(** An instance of [lookup_failure]: the one lookup in flight fails. *)
Lemma lookup_failure_witness :
  let s := fetchGeoFor "8.8.8.8" (initial [] ∅) in
  inflight s !! 0
  = Some {| query := "8.8.8.8"; url := "https://ipinfo.io/8.8.8.8/geo" |} ∧
  geo (step Stringify.history s (Settle 0 Failed "2025-01-02T12:00:00.000Z"))
  = None.
Proof.
  split; [reflexivity|].
  exact (proj1 (proj1 (lookup_failure Stringify.history
                         (fetchGeoFor "8.8.8.8" (initial [] ∅)))
                  0 _ "2025-01-02T12:00:00.000Z" eq_refl)).
Defined.

(** The error is cleared when a lookup is dispatched, not when one succeeds:
    a response that succeeds for a lookup dispatched before the failure
    leaves the message in place. *)
Example error_outlives_earlier_dispatch :
  let s :=
    run Stringify.history (initial [] ∅)
      [Change "8.8.8.8"; ClickSearch; Change "1.1.1.1"; ClickSearch;
       Settle 0 Failed "2025-01-02T12:00:00.000Z";
       Settle 0 (Ok Samples.geo_cloudflare) "2025-01-02T12:00:01.000Z"] in
  geo s = Some Samples.geo_cloudflare ∧
  error s = "Unable to fetch geolocation for the provided IP.".
Proof. split; reflexivity. Qed.

(** An instance of [deleteSelected_three]: the first and the third of three
    entries are ticked. *)
Lemma deleteSelected_three_witness :
  let s :=
    run Stringify.history
      (initial [Samples.old_google; Samples.old_cloudflare;
                Samples.old_example] ∅)
      [ToggleSelect 0; ToggleSelect 2] in
  history s
  = [Samples.old_google; Samples.old_cloudflare; Samples.old_example] ∧
  marked (selectedForDelete s) 0 = true ∧
  marked (selectedForDelete s) 1 = false ∧
  marked (selectedForDelete s) 2 = true ∧
  history (deleteSelected Stringify.history s) = [Samples.old_cloudflare].
Proof.
  intros s.
  assert (history s = [Samples.old_google; Samples.old_cloudflare;
                       Samples.old_example]) as Hh by reflexivity.
  assert (marked (selectedForDelete s) 0 = true) as H0 by reflexivity.
  assert (marked (selectedForDelete s) 1 = false) as H1 by reflexivity.
  assert (marked (selectedForDelete s) 2 = true) as H2 by reflexivity.
  repeat (split; [assumption|]).
  exact (proj1 (proj2 (deleteSelected_three Stringify.history s
                         _ _ _ Hh H0 H1 H2))).
Defined.

(** An instance of [history_key_is_query]: the text typed is 01.1.1.1 with
    blanks around it, the provider answers with the record of 1.1.1.1, and
    the entry is recorded under 01.1.1.1, next to the entry of 1.1.1.1. *)
Lemma history_key_is_query_witness :
  let s := setSearch " 01.1.1.1 " (initial [Samples.old_cloudflare] ∅) in
  let s' :=
    run Stringify.history s
      [ClickSearch;
       Settle 0 (Ok Samples.geo_cloudflare) "2025-01-02T12:00:00.000Z"] in
  classify (search s) ≠ Invalid ∧
  geo_ip Samples.geo_cloudflare = Some "1.1.1.1" ∧
  history s'
  = recordLookup "01.1.1.1"
      {| ip := "01.1.1.1"; data := Samples.geo_cloudflare;
         when := "2025-01-02T12:00:00.000Z" |}
      [Samples.old_cloudflare] ∧
  ip <$> history s' = ["01.1.1.1"; "1.1.1.1"].
Proof.
  intros s s'.
  assert (classify (search s) ≠ Invalid) as Hvalid by discriminate.
  split; [exact Hvalid|]. split; [reflexivity|].
  split; [|reflexivity].
  exact (proj1 (proj1 (history_key_is_query Stringify.history s
                         Samples.geo_cloudflare "2025-01-02T12:00:00.000Z")
                  Hvalid)).
Defined.

(** C5 against the code.  [deleteSelected] empties the marks when it
    replaces the history; the Clear All button and the history updater of
    [fetchGeoFor] replace the history and leave the marks in place.  With
    the first of two entries ticked: after Clear All the history is empty
    and index 0 is still marked; and after the second entry is looked up
    again, it is the new first entry that carries the mark, so Delete
    Selected removes it and keeps the entry that was ticked. *)
Theorem stale_selection :
  let s0 := initial [Samples.old_google; Samples.old_cloudflare] ∅ in
  let s1 := run Stringify.history s0 [ToggleSelect 0; ClickClearAll] in
  let s2 :=
    run Stringify.history s0
      [ToggleSelect 0; ClickHistory 1;
       Settle 0 (Ok Samples.geo_cloudflare) "2025-01-02T12:00:00.000Z"] in
  (history s1 = [] ∧ marked (selectedForDelete s1) 0 = true) ∧
  (history s2 = [Samples.new_cloudflare; Samples.old_google] ∧
   marked (selectedForDelete s2) 0 = true ∧
   history (step Stringify.history s2 ClickDeleteSelected)
   = [Samples.old_google]).
Proof. repeat split; reflexivity. Qed.

(** ** Map synchronisation *)

Lemma absent_loc_rejected (geo : GeoRecord) :
  loc geo = None ∨ loc geo = Some "" → loc_rejected geo = true.
Proof. unfold loc_rejected, loc_parts. by intros [->| ->]. Qed.

Example located_parts :
  loc_parts Samples.geo_located
  = [Decimal false 123 (-1); Decimal true 456 (-1)].
Proof. reflexivity. Qed.

(** A record with [loc] 12.3,-45.6 on a fresh map: one marker is added at
    that position, the view is centred there and one circle is drawn. *)
Example located_update :
  updateMap (Some Samples.geo_located) Samples.fresh_map
  = let here :=
      {| lat := Decimal false 123 (-1); lng := Decimal true 456 (-1) |} in
    let circle := {| circle_center := here; radius := 500 |} in
    {| mapInstanceRef :=
         Some {| center := here; zoom := 12;
                 _precisionCircle := Some circle;
                 calls := [addCircle circle; openPopup;
                           bindPopup "<strong>IP:</strong> 203.0.113.7";
                           addMarker here; setView here 12] |};
       markerRef :=
         Some {| latlng := here;
                 popup := Some "<strong>IP:</strong> 203.0.113.7";
                 popupOpen := true |} |}.
Proof. reflexivity. Qed.

(** The guard of the effect lets non-finite components through. *)
Example infinite_loc_accepted :
  loc_rejected
    {| geo_ip := None; city := None; region := None; country := None;
       loc := Some "Infinity,0"; org := None; others := [] |} = false.
Proof. reflexivity. Qed.

(** C3, as the specification states it, fails on the code: after the record
    with [loc] 12.3,-45.6 has placed the marker and the circle, a record
    whose [loc] is not two numbers leaves the circle on the map. *)
Lemma map_sync_counterexample :
  let r1 := updateMap (Some Samples.geo_located) Samples.fresh_map in
  let r2 := updateMap (Some Samples.geo_unlocated) r1 in
  let here :=
    {| lat := Decimal false 123 (-1); lng := Decimal true 456 (-1) |} in
  loc_rejected Samples.geo_unlocated = true ∧
  latlng <$> markerRef r1 = Some here ∧
  mapInstanceRef r1 ≫= _precisionCircle
  = Some {| circle_center := here; radius := 500 |} ∧
  mapInstanceRef r2 ≫= _precisionCircle
  = Some {| circle_center := here; radius := 500 |} ∧
  mapInstanceRef r2 ≫= _precisionCircle ≠ None.
Proof. repeat split; try reflexivity. discriminate. Qed.

(** C3, amended: a GeoRecord whose [loc] is absent, or does not split at its
    commas into exactly two pieces that [parseFloat] reads as numbers, makes
    the effect return before any call on the map: the marker, the view and
    the overlay circle are all left as they were. *)
Theorem rejected_loc_keeps_map (geo : GeoRecord) (refs : MapRefs) :
  loc geo = None ∨ loc_rejected geo = true →
  updateMap (Some geo) refs = refs.
Proof.
  intros H.
  assert (loc_rejected geo = true) as Hrej.
  { destruct H as [H|H]; [apply absent_loc_rejected; by left | done]. }
  unfold updateMap. destruct (mapInstanceRef refs); [|done]. by rewrite Hrej.
Qed.

(** An instance of [rejected_loc_keeps_map]: the map that shows 12.3,-45.6
    receives a record whose [loc] is the word unknown. *)
Lemma rejected_loc_keeps_map_witness :
  let r1 := updateMap (Some Samples.geo_located) Samples.fresh_map in
  (loc Samples.geo_unlocated = None ∨
   loc_rejected Samples.geo_unlocated = true) ∧
  updateMap (Some Samples.geo_unlocated) r1 = r1.
Proof.
  intros r1.
  assert (loc Samples.geo_unlocated = None ∨
          loc_rejected Samples.geo_unlocated = true) as H
    by (right; reflexivity).
  split; [exact H|]. exact (rejected_loc_keeps_map _ r1 H).
Defined.

(** ** Loading the history *)

Example parse_empty_array : JSON.parse "[]" = Normal (JSON.Array []).
Proof. reflexivity. Qed.

Example parse_malformed : JSON.parse "{not json" = Throw SyntaxError.
Proof. reflexivity. Qed.

Example parse_empty_text : JSON.parse "" = Throw SyntaxError.
Proof. reflexivity. Qed.

Example parse_written_history :
  JSON.parse (Stringify.history [Samples.old_example])
  = Normal
      (JSON.Array
         [JSON.Object
            [("ip", JSON.Str "203.0.113.7");
             ("data",
              JSON.Object [("ip", JSON.Str "203.0.113.7");
                           ("loc", JSON.Str "12.3,-45.6")]);
             ("when", JSON.Str "2025-01-01T08:00:00.000Z")]]).
Proof. reflexivity. Qed.

(** C6: [load] never throws.  Whatever the storage holds it returns a value,
    and when the key is missing, holds the empty string, or holds a text
    that [JSON.parse] refuses, that value is the empty array. *)
Theorem load_absorbs (JSON_parse : string → Completion JSON.value)
    (storage : Storage) :
  JSON_parse "[]" = Normal (JSON.Array []) →
  (∃ v, load JSON_parse storage = Normal v) ∧
  (storage !! STORAGE_KEY = None →
   load JSON_parse storage = Normal (JSON.Array [])) ∧
  (storage !! STORAGE_KEY = Some "" →
   load JSON_parse storage = Normal (JSON.Array [])) ∧
  (∀ text e,
     storage !! STORAGE_KEY = Some text → JSON_parse text = Throw e →
     load JSON_parse storage = Normal (JSON.Array [])).
Proof.
  intros Hempty. unfold load. repeat split.
  - destruct (JSON_parse (or_else _ _)) as [v|e]; simpl; eauto.
  - intros ->. simpl. by rewrite Hempty.
  - intros ->. simpl. by rewrite Hempty.
  - intros text e -> Hthrow. simpl.
    destruct (JsString.is_empty text); [by rewrite Hempty|].
    by rewrite Hthrow.
Qed.

(** An instance of [load_absorbs]: the slot holds the text of the
    specification's example of corrupt data. *)
Lemma load_absorbs_witness :
  JSON.parse "[]" = Normal (JSON.Array []) ∧
  ({[ STORAGE_KEY := "{not json" ]} : Storage) !! STORAGE_KEY
  = Some "{not json" ∧
  JSON.parse "{not json" = Throw SyntaxError ∧
  load JSON.parse {[ STORAGE_KEY := "{not json" ]} = Normal (JSON.Array []).
Proof.
  assert (({[ STORAGE_KEY := "{not json" ]} : Storage) !! STORAGE_KEY
          = Some "{not json") as Hslot by apply lookup_singleton_eq.
  split; [reflexivity|]. split; [exact Hslot|]. split; [reflexivity|].
  exact (proj2 (proj2 (proj2 (load_absorbs JSON.parse _ eq_refl)))
           "{not json" SyntaxError Hslot eq_refl).
Defined.

(** * Further properties of the code *)

(** ** The patterns of [IP_REGEX] *)

Lemma str_length_app (s t : string) :
  String.length (s +:+ t) = String.length s + String.length t.
Proof.
  induction s as [|c s IH]; [done|]. rewrite str_app_cons. simpl. by rewrite IH.
Qed.

Lemma octet_ok_length (s : string) :
  octet_ok s = true → 1 ≤ String.length s ≤ 3.
Proof.
  unfold octet_ok. rewrite andb_true_iff, !orb_true_iff, !andb_true_iff.
  rewrite !Nat.eqb_eq. lia.
Qed.

Lemma hextet_ok_length (s : string) :
  hextet_ok s = true → 1 ≤ String.length s ≤ 4.
Proof.
  unfold hextet_ok. rewrite !andb_true_iff, !Nat.leb_le. lia.
Qed.

Lemma digit_value_bound (c : ascii) :
  digit c = true → (JsNumber.digit_value c ≤ 9)%N.
Proof.
  intros H. apply digit_spec in H. unfold JsNumber.digit_value. lia.
Qed.

(** An octet the pattern accepts reads, in decimal, as at most 255. *)
Lemma octet_ok_decimal (s : string) :
  octet_ok s = true → spec_octet_decimal s = true.
Proof.
  unfold octet_ok, spec_octet_decimal, decimal_value.
  destruct s as [|c1 [|c2 [|c3 [|c4 s]]]]; simpl;
    rewrite ?andb_true_r, ?andb_false_r; try done.
  - intros H1. rewrite H1. simpl. apply N.leb_le.
    apply digit_value_bound in H1. lia.
  - rewrite !andb_true_iff. intros [H1 H2]. rewrite H1, H2. simpl.
    split; [done|]. apply N.leb_le.
    apply digit_value_bound in H1, H2. lia.
  - rewrite !andb_true_iff. intros [[H1 [H2 H3]] [_ Hhi]].
    by rewrite H1, H2, H3, Hhi.
Qed.

Lemma digits_value_lower (s : string) (acc : N) :
  (acc * 10 ^ N.of_nat (String.length s) ≤ JsNumber.digits_value acc s)%N.
Proof.
  revert acc. induction s as [|c s IH]; intros acc; simpl String.length.
  - simpl. lia.
  - simpl JsNumber.digits_value.
    etrans; [|apply IH].
    rewrite Nat2N.inj_succ, N.pow_succ_r'. nia.
Qed.

Lemma leading_zero_match (c : ascii) (r : string) :
  match String c r with
  | String "0" (String _ _) => false
  | _ => true
  end = negb (Ascii.eqb c "0" && negb (JsString.is_empty r)).
Proof.
  destruct c as [[] [] [] [] [] [] [] []]; destruct r; reflexivity.
Qed.

(** The canonical numeral of a value in [0,255] is an octet the pattern
    accepts. *)
Lemma canonical_octet_ok (s : string) :
  spec_octet_canonical s = true → octet_ok s = true.
Proof.
  unfold spec_octet_canonical, spec_octet_decimal, octet_ok, decimal_value.
  destruct s as [|c1 r]; [done|]. rewrite leading_zero_match.
  rewrite !andb_true_iff, negb_true_iff, N.leb_le.
  intros [[[_ Hd] Hv] Hz]. split; [done|].
  destruct r as [|c2 [|c3 [|c4 r]]]; [done|done| |].
  - (* three digits: the first is not 0 *)
    simpl in *. rewrite andb_true_r in Hz.
    apply andb_true_iff in Hd as [H1 _]. apply digit_spec in H1.
    assert (JsString.code c1 ≠ 48) as Hne.
    { intros E. apply (code_inj c1 "0") in E. subst c1. done. }
    rewrite !andb_true_iff, !N.leb_le. unfold JsNumber.digit_value in *.
    repeat split; lia.
  - (* four digits or more read as 1000 at least *)
    exfalso. simpl in Hz. rewrite andb_true_r in Hz.
    apply andb_true_iff in Hd as [H1 _]. apply digit_spec in H1.
    assert (JsString.code c1 ≠ 48) as Hne.
    { intros E. apply (code_inj c1 "0") in E. subst c1. done. }
    simpl JsNumber.digits_value in Hv.
    pose proof (digits_value_lower (String c2 (String c3 (String c4 r)))
                  (10 * 0 + JsNumber.digit_value c1)) as Hlow.
    assert (1 ≤ JsNumber.digit_value c1)%N as H1'.
    { unfold JsNumber.digit_value. lia. }
    simpl String.length in Hlow.
    assert (10 ^ 3 ≤ 10 ^ N.of_nat (S (S (S (String.length r)))))%N as Hpow.
    { apply N.pow_le_mono_r; lia. }
    simpl JsNumber.digits_value in Hlow. nia.
Qed.

Lemma separated_impl (sep : ascii) (n : nat) (p q : string → bool)
    (s : string) :
  (∀ x, p x = true → q x = true) →
  separated sep n p s = true → separated sep n q s = true.
Proof.
  intros Hpq. unfold separated. rewrite !andb_true_iff.
  intros [Hn Hp]. split; [done|]. revert Hp. by apply forallb_impl.
Qed.

(** X1.  The IPv4 pattern lies between the two readings of a dotted quad:
    it accepts every text of four dot-separated canonical numerals of
    values in [0,255], and every text it accepts is four dot-separated
    pieces of decimal digits that read as at most 255. *)
Theorem ipv4_pattern_bounds (s : string) :
  (spec_ipv4 spec_octet_canonical s = true → test IP_REGEX.ipv4 s = true) ∧
  (test IP_REGEX.ipv4 s = true → spec_ipv4 spec_octet_decimal s = true).
Proof.
  rewrite ipv4_test_shape. unfold spec_ipv4, ipv4_shape. split.
  - apply separated_impl, canonical_octet_ok.
  - apply separated_impl, octet_ok_decimal.
Qed.

(** An instance of [ipv4_pattern_bounds]. *)
Lemma ipv4_pattern_bounds_witness :
  spec_ipv4 spec_octet_canonical "192.168.0.255" = true ∧
  test IP_REGEX.ipv4 "192.168.0.255" = true ∧
  spec_ipv4 spec_octet_decimal "192.168.0.255" = true.
Proof.
  assert (spec_ipv4 spec_octet_canonical "192.168.0.255" = true) as H
    by reflexivity.
  split; [exact H|].
  pose proof (proj1 (ipv4_pattern_bounds "192.168.0.255") H) as H'.
  split; [exact H'|]. exact (proj2 (ipv4_pattern_bounds "192.168.0.255") H').
Defined.

Lemma digit_address_char (c : ascii) : digit c = true → address_char c = true.
Proof.
  intros H. unfold address_char, hexdigit. fold digit. by rewrite H.
Qed.

Lemma ipv4_shape_chars (s : string) :
  ipv4_shape s = true → JsString.all_chars address_char s = true.
Proof.
  unfold ipv4_shape, separated. rewrite andb_true_iff. intros [_ Hall].
  rewrite <- (unsplit_split "." s). apply all_chars_unsplit; [done|].
  revert Hall. apply forallb_impl. intros x Hx. apply octet_ok_digits in Hx.
  revert Hx. apply all_chars_impl, digit_address_char.
Qed.

Lemma ipv6_shape_chars (s : string) :
  ipv6_shape s = true → JsString.all_chars address_char s = true.
Proof.
  unfold ipv6_shape, separated. rewrite orb_true_iff, andb_true_iff.
  intros [[_ Hall]|Hloop].
  - rewrite <- (unsplit_split ":" s). apply all_chars_unsplit; [done|].
    revert Hall. apply forallb_impl. intros x. unfold hextet_ok.
    rewrite !andb_true_iff. intros [[Hx _] _].
    revert Hx. apply all_chars_impl. intros c Hc.
    unfold address_char. by rewrite Hc.
  - apply String.eqb_eq in Hloop. by subst s.
Qed.

Lemma ipv4_shape_length (s : string) :
  ipv4_shape s = true → 7 ≤ String.length s ≤ 15.
Proof.
  unfold ipv4_shape, separated. rewrite andb_true_iff, Nat.eqb_eq.
  intros [Hlen Hall]. rewrite <- (unsplit_split "." s).
  destruct (JsString.split "." s) as [|a [|b [|c [|d [|e l]]]]]; try done.
  simpl in Hall. rewrite !andb_true_iff in Hall.
  destruct Hall as (Ha & Hb & Hc & Hd & _).
  apply octet_ok_length in Ha, Hb, Hc, Hd.
  simpl unsplit. rewrite !str_length_app. simpl String.length. lia.
Qed.

Lemma ipv6_shape_length (s : string) :
  ipv6_shape s = true → 3 ≤ String.length s ≤ 39.
Proof.
  unfold ipv6_shape, separated. rewrite orb_true_iff, andb_true_iff, Nat.eqb_eq.
  intros [[Hlen Hall]|Hloop].
  - rewrite <- (unsplit_split ":" s).
    destruct (JsString.split ":" s)
      as [|g1 [|g2 [|g3 [|g4 [|g5 [|g6 [|g7 [|g8 [|g9 l]]]]]]]]]; try done.
    simpl in Hall. rewrite !andb_true_iff in Hall.
    destruct Hall as (H1 & H2 & H3 & H4 & H5 & H6 & H7 & H8 & _).
    apply hextet_ok_length in H1, H2, H3, H4, H5, H6, H7, H8.
    simpl unsplit. rewrite !str_length_app. simpl String.length. lia.
  - apply String.eqb_eq in Hloop. subst s. simpl. lia.
Qed.

Lemma valid_ip_shape (q : string) :
  valid_ip q = true ↔ ipv4_shape q = true ∨ ipv6_shape q = true.
Proof.
  unfold valid_ip. by rewrite orb_true_iff, ipv4_test_shape, ipv6_test_shape.
Qed.

Lemma valid_ip_not_geo (q : string) : valid_ip q = true → q ≠ "geo".
Proof. intros H ->. done. Qed.

Lemma classify_valid (text : string) :
  classify text ≠ Invalid ↔ valid_ip (JsString.trim text) = true.
Proof.
  unfold classify, valid_ip.
  destruct (JsString.is_empty (JsString.trim text)) eqn:E.
  - apply is_empty_true in E. rewrite E. by split.
  - destruct (test IP_REGEX.ipv4 _); [by split|].
    destruct (test IP_REGEX.ipv6 _); by split.
Qed.

(** X2.  An address that passes the validation is between 3 and 39
    characters long and holds nothing but hexadecimal digits, dots and
    colons: no white space, no slash, nothing that could change the path of
    the provider's URL it is spliced into. *)
Theorem valid_ip_alphabet (q : string) :
  valid_ip q = true →
  JsString.all_chars address_char q = true ∧ 3 ≤ String.length q ≤ 39.
Proof.
  intros H. apply valid_ip_shape in H as [H|H].
  - split; [by apply ipv4_shape_chars|]. apply ipv4_shape_length in H. lia.
  - split; [by apply ipv6_shape_chars | by apply ipv6_shape_length].
Qed.

(** An instance of [valid_ip_alphabet]. *)
Lemma valid_ip_alphabet_witness :
  valid_ip "2001:db8:0:0:0:0:2:1" = true ∧
  JsString.all_chars address_char "2001:db8:0:0:0:0:2:1" = true.
Proof.
  assert (valid_ip "2001:db8:0:0:0:0:2:1" = true) as H by reflexivity.
  split; [exact H|]. exact (proj1 (valid_ip_alphabet _ H)).
Defined.

(** ** [handleSearch], [handleClear] and the lookups they dispatch *)

Lemma handleSearch_refused (s : State) :
  classify (search s) = Invalid →
  handleSearch s
  = setError (if JsString.is_empty (JsString.trim (search s))
              then "Please enter an IP address."
              else "Please enter a valid IPv4 or IPv6 address.") s.
Proof.
  unfold classify, handleSearch. cbn [search setError].
  destruct (JsString.is_empty _) eqn:E; [done|].
  destruct (test IP_REGEX.ipv4 _); [done|].
  destruct (test IP_REGEX.ipv6 _); [done|]. done.
Qed.

(** X3.  A search text that fails the validation never reaches the
    provider: [handleSearch] dispatches nothing and changes nothing but the
    error, which it sets to the message for an empty text when the trimmed
    text is empty and to the message for an invalid address otherwise. *)
Theorem handleSearch_invalid (s : State) :
  classify (search s) = Invalid →
  handleSearch s
  = setError (if JsString.is_empty (JsString.trim (search s))
              then "Please enter an IP address."
              else "Please enter a valid IPv4 or IPv6 address.") s ∧
  inflight (handleSearch s) = inflight s ∧
  error (handleSearch s) ≠ "".
Proof.
  intros H. rewrite (handleSearch_refused s H).
  split; [done|]. split; [done|].
  cbn [error setError]. by destruct (JsString.is_empty _).
Qed.

(** An instance of [handleSearch_invalid]. *)
Lemma handleSearch_invalid_witness :
  let s := setSearch "10.0.0.256" (mounted [] ∅) in
  classify (search s) = Invalid ∧
  error (handleSearch s) = "Please enter a valid IPv4 or IPv6 address." ∧
  inflight (handleSearch s) = inflight s.
Proof.
  intros s. assert (classify (search s) = Invalid) as H by reflexivity.
  split; [exact H|].
  destruct (handleSearch_invalid s H) as (E & Hin & _).
  split; [by rewrite E | exact Hin].
Defined.

(** X4.  A search text that passes the validation dispatches exactly one
    lookup: its query is the trimmed text, its URL is the provider's URL for
    that address (never the URL of the caller's own address), the error is
    cleared, and the result, the history and the storage wait for the
    response. *)
Theorem handleSearch_dispatch (s : State) :
  classify (search s) ≠ Invalid →
  let q := JsString.trim (search s) in
  inflight (handleSearch s)
  = inflight s ++ [{| query := q; url := "https://ipinfo.io/" +:+ q +:+ "/geo" |}] ∧
  valid_ip q = true ∧
  error (handleSearch s) = "" ∧
  geo (handleSearch s) = geo s ∧
  history (handleSearch s) = history s ∧
  localStorage (handleSearch s) = localStorage s.
Proof.
  intros Hvalid q. rewrite (handleSearch_valid s Hvalid).
  apply classify_valid in Hvalid as Hq. fold q in Hq.
  split; [|done]. unfold fetchGeoFor. cbn [inflight setInflight setError].
  fold q. apply valid_ip_not_geo, String.eqb_neq in Hq. by rewrite Hq.
Qed.

(** An instance of [handleSearch_dispatch]. *)
Lemma handleSearch_dispatch_witness :
  let s := setSearch " 8.8.8.8 " (initial [] ∅) in
  classify (search s) ≠ Invalid ∧
  inflight (handleSearch s)
  = [{| query := "8.8.8.8"; url := "https://ipinfo.io/8.8.8.8/geo" |}].
Proof.
  intros s. assert (classify (search s) ≠ Invalid) as H by discriminate.
  split; [exact H|]. exact (proj1 (handleSearch_dispatch s H)).
Defined.

(** ** The history updater *)

Lemma recordLookups_snoc (calls : list HistoryEntry) (e : HistoryEntry)
    (h : list HistoryEntry) :
  recordLookups (calls ++ [e]) h
  = recordLookup (ip e) e (recordLookups calls h).
Proof. unfold recordLookups. by rewrite foldl_app. Qed.

(** X5.  When the addresses of a sequence of lookups are all different, the
    history they leave is the 50 most recent of them, the newest first: the
    51st lookup evicts the oldest entry. *)
Theorem eviction (calls : list HistoryEntry) :
  NoDup (ip <$> calls) →
  recordLookups calls [] = take 50 (reverse calls).
Proof.
  induction calls as [|e calls IH] using rev_ind; [done|].
  rewrite fmap_app, NoDup_app. intros (Hdup & Hfresh & _).
  rewrite recordLookups_snoc, (IH Hdup), reverse_snoc.
  unfold recordLookup. rewrite filter_all.
  - change (take 50 (e :: take 50 (reverse calls)))
      with (e :: take 49 (take 50 (reverse calls))).
    by rewrite take_take.
  - apply Forall_forall. intros h Hh Heq.
    apply elem_of_take in Hh as (i & Hi & _).
    apply list_elem_of_lookup_2 in Hi. rewrite elem_of_reverse in Hi.
    apply (Hfresh (ip h)); [by apply list_elem_of_fmap_2|].
    rewrite Heq. simpl. apply list_elem_of_here.
Qed.

(** A literal that is none of the literals of a list. *)
Ltac not_member :=
  let Hin := fresh "Hin" in
  intros Hin;
  repeat (apply elem_of_cons in Hin as [Hin|Hin]; [discriminate Hin|]);
  by apply elem_of_nil in Hin.

(** An instance of [eviction]. *)
Lemma eviction_witness :
  NoDup (ip <$> [Samples.old_example; Samples.old_cloudflare;
                 Samples.old_google]) ∧
  recordLookups [Samples.old_example; Samples.old_cloudflare;
                 Samples.old_google] []
  = [Samples.old_google; Samples.old_cloudflare; Samples.old_example].
Proof.
  assert (NoDup (ip <$> [Samples.old_example; Samples.old_cloudflare;
                         Samples.old_google])) as H.
  { simpl. apply NoDup_cons. split.
    - not_member.
    - apply NoDup_cons. split; [not_member | apply NoDup_singleton]. }
  split; [exact H|]. exact (eviction _ H).
Defined.

(** X6.  A lookup of an address that is not in the history puts its entry
    in front of the first 49 entries of the previous history: below the
    capacity nothing is lost, and at the capacity exactly the entries from
    position 49 on are dropped. *)
Theorem recordLookup_fresh (e : HistoryEntry) (prev : list HistoryEntry) :
  ip e ∉ ip <$> prev →
  recordLookup (ip e) e prev = e :: take 49 prev ∧
  (length prev < 50 → recordLookup (ip e) e prev = e :: prev) ∧
  length (recordLookup (ip e) e prev) = min 50 (S (length prev)).
Proof.
  intros Hfresh.
  assert (filter (λ h, ip h ≠ ip e) prev = prev) as Hsame.
  { apply filter_all, Forall_forall. intros h Hh Heq. apply Hfresh.
    rewrite <- Heq. by apply list_elem_of_fmap_2. }
  rewrite recordLookup_cons, Hsame. split; [done|]. split.
  - intros Hlen. by rewrite take_ge by lia.
  - cbn [length]. rewrite length_take. lia.
Qed.

(** An instance of [recordLookup_fresh]. *)
Lemma recordLookup_fresh_witness :
  (ip Samples.old_example
     ∉ ip <$> [Samples.old_google; Samples.old_cloudflare]) ∧
  recordLookup "203.0.113.7" Samples.old_example
    [Samples.old_google; Samples.old_cloudflare]
  = [Samples.old_example; Samples.old_google; Samples.old_cloudflare].
Proof.
  assert (ip Samples.old_example
            ∉ ip <$> [Samples.old_google; Samples.old_cloudflare]) as H.
  { simpl. not_member. }
  split; [exact H|].
  exact (proj1 (proj2 (recordLookup_fresh _ _ H)) ltac:(simpl; lia)).
Defined.

(** X7.  Recording the same entry twice in a row gives the history that
    recording it once gives. *)
Theorem recordLookup_idempotent (e : HistoryEntry) (prev : list HistoryEntry) :
  recordLookup (ip e) e (recordLookup (ip e) e prev)
  = recordLookup (ip e) e prev.
Proof.
  rewrite !recordLookup_cons.
  rewrite filter_cons_False by (intros H; by apply H).
  rewrite filter_all by apply others_differ.
  by rewrite take_take.
Qed.


(** ** Selection and deletion *)

Lemma filter_from_elem {A : Type} (p : A → nat → bool) (l : list A) :
  ∀ k x, x ∈ filter_from p k l ↔ ∃ i, l !! i = Some x ∧ p x (k + i) = true.
Proof.
  induction l as [|y l IH]; intros k x; simpl.
  - split; [by intros ?%elem_of_nil | by intros (i & ? & _)].
  - assert (x ∈ filter_from p (S k) l ↔
            ∃ i, (y :: l) !! S i = Some x ∧ p x (k + S i) = true) as Htail.
    { rewrite IH. by setoid_rewrite Nat.add_succ_r. }
    destruct (p y k) eqn:Hy.
    + rewrite elem_of_cons, Htail. split.
      * intros [->|(i & Hi & Hp)]; [|eauto].
        exists 0. by rewrite Nat.add_0_r.
      * intros ([|i] & Hi & Hp); [|eauto].
        left. simpl in Hi. congruence.
    + rewrite Htail. split; [intros (i & Hi & Hp); eauto|].
      intros ([|i] & Hi & Hp); [|eauto].
      simpl in Hi. rewrite Nat.add_0_r in Hp. congruence.
Qed.

(** X8.  The entries that [deleteIndices] keeps are the entries at the
    indices that are not marked: an entry is in the result exactly when it
    stands in the history at some unmarked index, and the kept entries stay
    in their order. *)
Theorem deleteIndices_kept (sel : gmap nat bool) (h : list HistoryEntry)
    (x : HistoryEntry) :
  (x ∈ deleteIndices sel h ↔ ∃ i, h !! i = Some x ∧ marked sel i = false) ∧
  deleteIndices sel h `sublist_of` h.
Proof.
  split; [|apply deleteIndices_sublist].
  unfold deleteIndices, filter_indexed. rewrite filter_from_elem.
  by setoid_rewrite negb_true_iff.
Qed.

Lemma filter_from_all {A : Type} (p : A → nat → bool) (l : list A) :
  ∀ k, (∀ i x, l !! i = Some x → p x (k + i) = true) →
       filter_from p k l = l.
Proof.
  induction l as [|y l IH]; intros k H; simpl; [done|].
  rewrite <- (Nat.add_0_r k) at 1. rewrite (H 0 y eq_refl). f_equal.
  apply IH. intros i x Hi. rewrite Nat.add_succ_l, <- Nat.add_succ_r.
  by apply H.
Qed.

(** [toggleSelect] flips the mark of its index and of no other. *)
Lemma toggleSelect_marked (idx j : nat) (s : State) :
  marked (selectedForDelete (toggleSelect idx s)) j
  = if decide (j = idx) then negb (marked (selectedForDelete s) idx)
    else marked (selectedForDelete s) j.
Proof.
  unfold toggleSelect, marked. cbn [selectedForDelete setSelectedForDelete].
  destruct (decide (j = idx)) as [->|Hne].
  - by rewrite lookup_insert_eq.
  - by rewrite lookup_insert_ne.
Qed.

(** X9.  Ticking a checkbox twice leaves every index marked as it was, and
    ticking it once changes the mark of that index alone. *)
Theorem toggleSelect_twice (idx j : nat) (s : State) :
  marked (selectedForDelete (toggleSelect idx (toggleSelect idx s))) j
  = marked (selectedForDelete s) j ∧
  (j ≠ idx →
   marked (selectedForDelete (toggleSelect idx s)) j
   = marked (selectedForDelete s) j) ∧
  marked (selectedForDelete (toggleSelect idx s)) idx
  = negb (marked (selectedForDelete s) idx).
Proof.
  rewrite !toggleSelect_marked. repeat split.
  - destruct (decide (j = idx)) as [->|Hne]; [|done].
    destruct (decide (idx = idx)); [|done]. by rewrite negb_involutive.
  - intros Hne. by destruct (decide (j = idx)).
  - by destruct (decide (idx = idx)).
Qed.

Section MoreControllerProperties.

Variable stringify : list HistoryEntry → string.

(** X10.  Delete Selected with no checkbox ticked (none ever touched, or
    each ticked and unticked again) removes nothing: the history stays as
    it is, it is written to the storage again, and the marks are emptied. *)
Theorem deleteSelected_nothing (s : State) :
  (∀ i, i < length (history s) → marked (selectedForDelete s) i = false) →
  history (deleteSelected stringify s) = history s ∧
  localStorage (deleteSelected stringify s)
  = <[STORAGE_KEY := stringify (history s)]> (localStorage s) ∧
  selectedForDelete (deleteSelected stringify s) = ∅.
Proof.
  intros Hnone.
  assert (deleteIndices (selectedForDelete s) (history s) = history s) as E.
  { apply filter_from_all. intros i x Hi. simpl.
    rewrite Hnone; [done|]. by apply lookup_lt_Some in Hi. }
  unfold deleteSelected. cbn. by rewrite E.
Qed.

Lemma handleSearch_storage (s : State) :
  localStorage (handleSearch s) = localStorage s.
Proof.
  unfold handleSearch.
  destruct (JsString.is_empty _); [done|]. by destruct (_ && _).
Qed.

Lemma handleSearch_selection (s : State) :
  selectedForDelete (handleSearch s) = selectedForDelete s.
Proof.
  unfold handleSearch.
  destruct (JsString.is_empty _); [done|]. by destruct (_ && _).
Qed.

Lemma resume_self (data : GeoRecord) (now : string) (s : State) :
  fetchGeoFor_resume stringify "geo" (Ok data) now s
  = setRefs (updateMap (Some data) (refs s)) (setGeo (Some data) s).
Proof. reflexivity. Qed.

(** X11.  The lookup of the caller's own address, dispatched when the
    component mounts and when Clear is clicked, replaces the current result
    and records nothing: the history, the storage and the marks are as
    before, and Clear also empties the search box and the error. *)
Theorem self_lookup_unrecorded (s : State) (data : GeoRecord) (now : string) :
  let after ev :=
    run stringify s [ev; Settle (length (inflight s)) (Ok data) now] in
  (geo (after Mount) = Some data ∧
   history (after Mount) = history s ∧
   localStorage (after Mount) = localStorage s ∧
   selectedForDelete (after Mount) = selectedForDelete s ∧
   search (after Mount) = search s) ∧
  (geo (after ClickClear) = Some data ∧
   history (after ClickClear) = history s ∧
   localStorage (after ClickClear) = localStorage s ∧
   selectedForDelete (after ClickClear) = selectedForDelete s ∧
   search (after ClickClear) = "" ∧
   error (after ClickClear) = "").
Proof.
  intros after. unfold after. rewrite !run_two. split.
  - change (step stringify s Mount) with (fetchGeoFor "geo" s).
    by rewrite settle_dispatched, resume_self.
  - change (step stringify s ClickClear)
      with (fetchGeoFor "geo" (setError "" (setSearch "" s))).
    change (length (inflight s))
      with (length (inflight (setError "" (setSearch "" s)))).
    by rewrite settle_dispatched, resume_self.
Qed.

(** A lookup that fails changes the error and nothing else the user sees
    or the storage keeps: the current result, the history, the storage, the
    marks, the search box and the map are as before. *)
Lemma failure_contained (s : State) (k : nat) (req : Request)
    (now : string) :
  inflight s !! k = Some req →
  step stringify s (Settle k Failed now)
  = setError "Unable to fetch geolocation for the provided IP."
      (setInflight (delete k (inflight s)) s).
Proof. intros Hk. unfold step. by rewrite Hk. Qed.

Lemma step_storage_synced (s : State) (ev : Event) :
  storage_synced stringify s → storage_synced stringify (step stringify s ev).
Proof.
  unfold storage_synced. intros H. destruct ev; simpl.
  - (* Mount *) done.
  - (* MapReady *) done.
  - (* Change *) done.
  - (* ClickSearch *) by rewrite handleSearch_history, handleSearch_storage.
  - (* ClickClear *) done.
  - (* ClickHistory *) by destruct (history s !! idx).
  - (* ToggleSelect *) done.
  - (* ClickDeleteSelected *) left. apply lookup_insert_eq.
  - (* ClickClearAll *) right. split; [apply lookup_delete_eq | done].
  - (* Settle *)
    destruct (inflight s !! k) as [req|]; [|done].
    destruct outcome as [data|]; [|done]. unfold fetchGeoFor_resume.
    destruct (negb (String.eqb (query req) "geo")); [|done].
    left. cbn. apply lookup_insert_eq.
Qed.

(** X13.  The storage follows the screen.  From a state in which the slot of
    the history holds the written history (or nothing, the history being
    empty), whatever the user does and whatever the provider answers, the
    slot again holds the written history, or nothing with an empty
    history. *)
Theorem storage_follows (evs : list Event) (s : State) :
  storage_synced stringify s → storage_synced stringify (run stringify s evs).
Proof.
  revert s. induction evs as [|ev evs IH]; intros s H; [done|].
  apply IH. by apply step_storage_synced.
Qed.

Lemma Forall_sub {A : Type} (P : A → Prop) (l k : list A) :
  k `sublist_of` l → Forall P l → Forall P k.
Proof.
  intros Hsub. rewrite !Forall_forall. intros H x Hx.
  apply H. by apply (elem_of_sublist k).
Qed.

Lemma fetchGeoFor_valid (q : string) (s : State) :
  q = "geo" ∨ valid_ip q = true →
  queries_valid s → queries_valid (fetchGeoFor q s).
Proof.
  intros Hq [Hh Hi]. split; [done|]. unfold fetchGeoFor. cbn.
  apply Forall_app. split; [done|]. by apply Forall_singleton.
Qed.

Lemma step_queries_valid (s : State) (ev : Event) :
  queries_valid s → queries_valid (step stringify s ev).
Proof.
  intros H. pose proof H as [Hh Hi]. destruct ev; simpl.
  - (* Mount *) apply fetchGeoFor_valid; [by left | done].
  - (* MapReady *) done.
  - (* Change *) done.
  - (* ClickSearch *)
    assert (classify (search s) = Invalid ∨ classify (search s) ≠ Invalid)
      as [E|E] by (destruct (classify (search s)); auto).
    + by rewrite (handleSearch_refused s E).
    + rewrite (handleSearch_valid s E).
      apply fetchGeoFor_valid; [|done]. right. by apply classify_valid.
  - (* ClickClear *) apply fetchGeoFor_valid; [by left | done].
  - (* ClickHistory *)
    destruct (history s !! idx) as [h|] eqn:Hidx; [|done].
    apply fetchGeoFor_valid; [|done]. right.
    by apply (Forall_lookup_1 _ _ _ _ Hh Hidx).
  - (* ToggleSelect *) done.
  - (* ClickDeleteSelected *)
    split; [|done]. cbn.
    by apply (Forall_sub _ (history s)); [apply deleteIndices_sublist|].
  - (* ClickClearAll *) split; [by constructor | done].
  - (* Settle *)
    destruct (inflight s !! k) as [req|] eqn:Hk; [|done].
    pose proof (Forall_lookup_1 _ _ _ _ Hi Hk) as Hreq.
    assert (Forall (λ r, query r = "geo" ∨ valid_ip (query r) = true)
              (delete k (inflight s))) as Hi' by by apply Forall_delete.
    destruct outcome as [data|]; [|done]. unfold fetchGeoFor_resume.
    destruct (String.eqb (query req) "geo") eqn:Hgeo; [done|].
    apply String.eqb_neq in Hgeo. destruct Hreq as [?|Hreq]; [done|].
    split; [|done]. cbn. apply Forall_cons. split; [done|].
    by apply Forall_take, (Forall_sub _ (history s)); [apply sublist_filter|].
Qed.

(** X14.  Only validated addresses are looked up and recorded.  From a
    state whose history and lookups in flight hold validated addresses (the
    lookup of the caller's own address apart), every address in the history
    and every lookup in flight after any events is again one that passes
    [IP_REGEX]; in particular none is the word that stands for the caller's
    own address. *)
Theorem queries_stay_valid (evs : list Event) (s : State) :
  queries_valid s → queries_valid (run stringify s evs).
Proof.
  revert s. induction evs as [|ev evs IH]; intros s H; [done|].
  apply IH. by apply step_queries_valid.
Qed.


Lemma step_token (s : State) (ev : Event) :
  localStorage (step stringify s ev) !! "authToken"
  = localStorage s !! "authToken".
Proof.
  destruct ev; simpl.
  - done.
  - done.
  - done.
  - by rewrite handleSearch_storage.
  - done.
  - by destruct (history s !! idx).
  - done.
  - by apply lookup_insert_ne.
  - by apply lookup_delete_ne.
  - destruct (inflight s !! k) as [req|]; [|done].
    destruct outcome as [data|]; [|done]. unfold fetchGeoFor_resume.
    destruct (negb (String.eqb (query req) "geo")); [|done].
    cbn. by apply lookup_insert_ne.
Qed.

(** X16.  Nothing the user does on the home screen, Clear All included, and
    nothing the provider answers touches the session token in the storage:
    the protected route renders after any events what it rendered before. *)
Theorem session_untouched (evs : list Event) (s : State) :
  localStorage (run stringify s evs) !! "authToken"
  = localStorage s !! "authToken" ∧
  ProtectedRoute (localStorage (run stringify s evs))
  = ProtectedRoute (localStorage s).
Proof.
  assert (localStorage (run stringify s evs) !! "authToken"
          = localStorage s !! "authToken") as H.
  { revert s. induction evs as [|ev evs IH]; intros s; [done|].
    simpl. by rewrite IH, step_token. }
  split; [done|]. unfold ProtectedRoute. by rewrite H.
Qed.

(** X17.  Clear All empties the history on the screen and removes its slot
    from the storage, so that the next [load] reads the empty history; the
    current result, the search box, the error and the lookups in flight are
    left alone. *)
Theorem clearAll_then_load (JSON_parse : string → Completion JSON.value)
    (s : State) :
  JSON_parse "[]" = Normal (JSON.Array []) →
  history (clearAll s) = [] ∧
  localStorage (clearAll s) !! STORAGE_KEY = None ∧
  load JSON_parse (localStorage (clearAll s)) = Normal (JSON.Array []) ∧
  geo (clearAll s) = geo s ∧ search (clearAll s) = search s ∧
  error (clearAll s) = error s ∧ inflight (clearAll s) = inflight s.
Proof.
  intros Hempty.
  assert (localStorage (clearAll s) !! STORAGE_KEY = None) as Hslot
    by apply lookup_delete_eq.
  repeat split; [done|]. unfold load. rewrite Hslot. simpl. by rewrite Hempty.
Qed.

(** ** The map effect *)

Lemma initMap_consistent (r : MapRefs) :
  refs_consistent r → refs_consistent (initMap r).
Proof.
  unfold refs_consistent, initMap.
  destruct (mapInstanceRef r) as [map|] eqn:E; simpl.
  - by rewrite E.
  - by intros ->.
Qed.

Lemma updateMap_consistent (g : option GeoRecord) (r : MapRefs) :
  refs_consistent r → refs_consistent (updateMap g r).
Proof.
  unfold refs_consistent, updateMap. destruct g as [g|]; [|done].
  destruct (mapInstanceRef r) as [map|] eqn:E; [|by rewrite E].
  destruct (loc_rejected g); [by rewrite E|].
  destruct (loc_parts g) as [|a [|b [|c l]]]; try by rewrite E.
  intros [Hm Hc].
  destruct (markerRef r), (_precisionCircle map); simpl;
    rewrite ?List.filter_app; simpl; lia.
Qed.

Lemma resume_ok_refs (q : string) (data : GeoRecord) (now : string)
    (s : State) :
  refs (fetchGeoFor_resume stringify q (Ok data) now s)
  = updateMap (Some data) (refs s).
Proof. unfold fetchGeoFor_resume. by destruct (negb (String.eqb q "geo")). Qed.

Lemma step_refs_consistent (s : State) (ev : Event) :
  refs_consistent (refs s) → refs_consistent (refs (step stringify s ev)).
Proof.
  intros H. destruct ev; simpl.
  - done.
  - by apply initMap_consistent.
  - done.
  - unfold handleSearch. destruct (JsString.is_empty _); [done|].
    by destruct (_ && _).
  - done.
  - by destruct (history s !! idx).
  - done.
  - done.
  - done.
  - destruct (inflight s !! k) as [req|]; [|done].
    destruct outcome as [data|]; [|done]. rewrite resume_ok_refs.
    by apply updateMap_consistent.
Qed.

Lemma run_refs_consistent (evs : list Event) (s : State) :
  refs_consistent (refs s) → refs_consistent (refs (run stringify s evs)).
Proof.
  revert s. induction evs as [|ev evs IH]; intros s H; [done|].
  apply IH. by apply step_refs_consistent.
Qed.

(** X18.  The marker is created once and moved afterwards: whatever the
    events, the map never receives a second [addMarker]. *)
Theorem marker_added_once (evs : list Event) (s : State) :
  refs_consistent (refs s) →
  count_calls is_addMarker (refs (run stringify s evs)) ≤ 1.
Proof.
  intros H. apply (run_refs_consistent evs) in H.
  unfold refs_consistent, count_calls in *.
  destruct (mapInstanceRef _); [|lia]. destruct H as [-> _].
  destruct (markerRef _); lia.
Qed.

(** X19.  There is never more than one overlay circle on the map: whatever
    the events, the circles added are the circles removed, plus the one the
    map shows if it shows one. *)
Theorem one_circle (evs : list Event) (s : State) :
  refs_consistent (refs s) →
  let r := refs (run stringify s evs) in
  count_calls is_addCircle r
  = count_calls is_removeLayer r
    + match shown r with Some (_, _, Some _) => 1 | _ => 0 end ∧
  count_calls is_addCircle r ≤ count_calls is_removeLayer r + 1.
Proof.
  intros H r. apply (run_refs_consistent evs) in H. fold r in H.
  unfold refs_consistent, count_calls, shown in *.
  destruct (mapInstanceRef r) as [map|]; simpl; [|lia].
  destruct H as [_ ->]. destruct (_precisionCircle map); lia.
Qed.

(** X20.  A result that arrives before the map is ready is never drawn:
    the effect finds no map and returns, and the initialisation of the map
    does not run it again, so the map comes up at its initial view without
    marker or circle. *)
Theorem early_result_undrawn (s : State) (k : nat) (req : Request)
    (data : GeoRecord) (now : string) :
  mapInstanceRef (refs s) = None →
  inflight s !! k = Some req →
  let s' := run stringify s [Settle k (Ok data) now; MapReady] in
  geo s' = Some data ∧
  refs s' = initMap (refs s) ∧
  shown (refs s')
  = Some ({| lat := Decimal false 20 0; lng := zero |}, 2%N, None).
Proof.
  intros Hmap Hk s'. unfold s'. rewrite run_two.
  assert (step stringify s (Settle k (Ok data) now)
          = fetchGeoFor_resume stringify (query req) (Ok data) now
              (setInflight (delete k (inflight s)) s)) as ->.
  { simpl. by rewrite Hk. }
  cbn [step]. cbn [refs setRefs geo].
  rewrite resume_ok_geo, resume_ok_refs. cbn [refs setInflight].
  assert (updateMap (Some data) (refs s) = refs s) as ->.
  { unfold updateMap. by rewrite Hmap. }
  split; [done|]. split; [done|].
  unfold shown, initMap. by rewrite Hmap.
Qed.

End MoreControllerProperties.

Lemma updateMap_shows (g : GeoRecord) (r : MapRefs) (map : LeafletMap)
    (a b : number) :
  mapInstanceRef r = Some map →
  loc_rejected g = false →
  loc_parts g = [a; b] →
  markerRef (updateMap (Some g) r)
  = Some {| latlng := {| lat := a; lng := b |};
            popup := Some (JsString.join "<br/>" (popupParts g));
            popupOpen := true |} ∧
  shown (updateMap (Some g) r)
  = Some ({| lat := a; lng := b |}, 12%N,
          Some {| circle_center := {| lat := a; lng := b |};
                  radius := 500 |}).
Proof.
  intros Hmap Hrej Hparts. unfold updateMap, shown.
  rewrite Hmap, Hrej, Hparts. by destruct (markerRef r).
Qed.



Lemma updateMap_cases (g : option GeoRecord) (r : MapRefs) :
  updateMap g r = r ∨
  ∃ geo map a b,
    g = Some geo ∧ mapInstanceRef r = Some map ∧
    loc_rejected geo = false ∧ loc_parts geo = [a; b].
Proof.
  unfold updateMap. destruct g as [geo|]; [|by left].
  destruct (mapInstanceRef r) as [map|] eqn:E; [|by left].
  destruct (loc_rejected geo) eqn:Hrej; [by left|].
  destruct (loc_parts geo) as [|a [|b [|c l]]] eqn:Hparts; try by left.
  right. by exists geo, map, a, b.
Qed.

(** X22.  Processing the same record twice shows what processing it once
    shows: the same marker with the same popup, the same view and the same
    circle. *)
Theorem updateMap_again (g : option GeoRecord) (r : MapRefs) :
  markerRef (updateMap g (updateMap g r)) = markerRef (updateMap g r) ∧
  shown (updateMap g (updateMap g r)) = shown (updateMap g r).
Proof.
  destruct (updateMap_cases g r) as [E|(geo & map & a & b & -> & Hm & Hr & Hp)].
  - by rewrite !E.
  - destruct (updateMap_shows geo r map a b Hm Hr Hp) as [M1 S1].
    assert (∃ map', mapInstanceRef (updateMap (Some geo) r) = Some map')
      as [map' Hm'].
    { unfold shown in S1. destruct (mapInstanceRef (updateMap _ r)); eauto.
      discriminate. }
    destruct (updateMap_shows geo _ map' a b Hm' Hr Hp) as [M2 S2].
    by rewrite M1, M2, S1, S2.
Qed.

(** ** Instances of the properties of the controller *)

(** An instance of [deleteSelected_nothing]. *)
Lemma deleteSelected_nothing_witness :
  let s :=
    run Stringify.history
      (initial [Samples.old_google; Samples.old_cloudflare] ∅)
      [ToggleSelect 1; ToggleSelect 1] in
  (∀ i, i < length (history s) → marked (selectedForDelete s) i = false) ∧
  history (deleteSelected Stringify.history s)
  = [Samples.old_google; Samples.old_cloudflare].
Proof.
  intros s.
  assert (∀ i, i < length (history s) →
               marked (selectedForDelete s) i = false) as H.
  { intros [|[|i]] Hi; [reflexivity | reflexivity | simpl in Hi; lia]. }
  split; [exact H|].
  exact (proj1 (deleteSelected_nothing Stringify.history s H)).
Defined.

(** An instance of [failure_contained]. *)
Lemma failure_contained_witness :
  let s := handleHistoryClick "8.8.8.8" (mounted [Samples.old_google] ∅) in
  inflight s !! 1
  = Some {| query := "8.8.8.8"; url := "https://ipinfo.io/8.8.8.8/geo" |} ∧
  history (step Stringify.history s (Settle 1 Failed "2025-01-02T12:00:00.000Z"))
  = [Samples.old_google].
Proof.
  intros s. split; [reflexivity|].
  by rewrite (failure_contained Stringify.history s 1 _
                "2025-01-02T12:00:00.000Z" eq_refl).
Defined.

(** An instance of [storage_follows]. *)
Lemma storage_follows_witness :
  let s :=
    run Stringify.history (mounted [] ∅)
      [Settle 0 (Ok Samples.geo_google) "2025-01-02T11:59:00.000Z";
       Change "1.1.1.1"; ClickSearch;
       Settle 0 (Ok Samples.geo_cloudflare) "2025-01-02T12:00:00.000Z"] in
  storage_synced Stringify.history (mounted [] ∅) ∧
  history s = [Samples.new_cloudflare] ∧
  storage_synced Stringify.history s.
Proof.
  intros s.
  assert (storage_synced Stringify.history (mounted [] ∅)) as H.
  { right. split; [apply lookup_empty | reflexivity]. }
  split; [exact H|]. split; [reflexivity|].
  exact (storage_follows Stringify.history _ _ H).
Defined.

(** An instance of [queries_stay_valid]. *)
Lemma queries_stay_valid_witness :
  let s :=
    run Stringify.history (mounted [] ∅)
      [Change " 1.1.1.1"; ClickSearch; Change "geo"; ClickSearch;
       Settle 1 (Ok Samples.geo_cloudflare) "2025-01-02T12:00:00.000Z";
       ClickHistory 0] in
  queries_valid (mounted [] ∅) ∧ queries_valid s.
Proof.
  intros s.
  assert (queries_valid (mounted [] ∅)) as H.
  { split; [constructor|]. repeat constructor. }
  split; [exact H|]. exact (queries_stay_valid Stringify.history _ _ H).
Defined.


(** An instance of [clearAll_then_load]. *)
Lemma clearAll_then_load_witness :
  let s :=
    run Stringify.history (mounted [] ∅)
      [Change "8.8.8.8"; ClickSearch;
       Settle 1 (Ok Samples.geo_google) "2025-01-01T10:00:00.000Z"] in
  JSON.parse "[]" = Normal (JSON.Array []) ∧
  history s = [Samples.old_google] ∧
  load JSON.parse (localStorage (clearAll s)) = Normal (JSON.Array []).
Proof.
  intros s. split; [reflexivity|]. split; [reflexivity|].
  exact (proj1 (proj2 (proj2 (clearAll_then_load JSON.parse s eq_refl)))).
Defined.

(** An instance of [marker_added_once]. *)
Lemma marker_added_once_witness :
  let evs :=
    [MapReady; Change "8.8.8.8"; ClickSearch;
     Settle 0 (Ok Samples.geo_located) "2025-01-02T11:59:00.000Z";
     Settle 0 (Ok Samples.geo_google) "2025-01-02T12:00:00.000Z"] in
  refs_consistent (refs (mounted [] ∅)) ∧
  count_calls is_addMarker (refs (run Stringify.history (mounted [] ∅) evs))
  ≤ 1.
Proof.
  intros evs.
  assert (refs_consistent (refs (mounted [] ∅))) as H by reflexivity.
  split; [exact H|]. exact (marker_added_once Stringify.history evs _ H).
Defined.

(** An instance of [one_circle]. *)
Lemma one_circle_witness :
  let evs :=
    [MapReady; Change "8.8.8.8"; ClickSearch;
     Settle 0 (Ok Samples.geo_located) "2025-01-02T11:59:00.000Z";
     Settle 0 (Ok Samples.geo_google) "2025-01-02T12:00:00.000Z"] in
  let r := refs (run Stringify.history (mounted [] ∅) evs) in
  refs_consistent (refs (mounted [] ∅)) ∧
  count_calls is_addCircle r ≤ count_calls is_removeLayer r + 1.
Proof.
  intros evs r.
  assert (refs_consistent (refs (mounted [] ∅))) as H by reflexivity.
  split; [exact H|]. exact (proj2 (one_circle Stringify.history evs _ H)).
Defined.

Example two_results_on_the_map :
  let r :=
    refs (run Stringify.history (mounted [] ∅)
            [MapReady; Change "8.8.8.8"; ClickSearch;
             Settle 0 (Ok Samples.geo_located) "2025-01-02T11:59:00.000Z";
             Settle 0 (Ok Samples.geo_google) "2025-01-02T12:00:00.000Z"]) in
  count_calls is_addMarker r = 1 ∧
  count_calls is_addCircle r = 2 ∧
  count_calls is_removeLayer r = 1.
Proof. repeat split; reflexivity. Qed.

(** An instance of [early_result_undrawn]. *)
Lemma early_result_undrawn_witness :
  let s := mounted [] ∅ in
  let s' :=
    run Stringify.history s
      [Settle 0 (Ok Samples.geo_located) "2025-01-02T11:59:00.000Z";
       MapReady] in
  mapInstanceRef (refs s) = None ∧
  inflight s !! 0
  = Some {| query := "geo"; url := "https://ipinfo.io/geo" |} ∧
  geo s' = Some Samples.geo_located ∧
  markerRef (refs s') = None.
Proof.
  intros s s'.
  destruct (early_result_undrawn Stringify.history s 0 _ Samples.geo_located
              "2025-01-02T11:59:00.000Z" eq_refl eq_refl) as (Hg & Hr & _).
  split; [reflexivity|]. split; [reflexivity|]. split; [exact Hg|].
  exact (f_equal markerRef Hr).
Defined.

(** ** The routes *)

Lemma settle_three (token : option string) (storage : Storage) (r : Route) :
  settle 3 token storage r
  = Some match r with
         | LoginRoute => LoginScreenElement
         | HomeRoute =>
             if truthy (storage !! "authToken") then HomeScreenElement
             else LoginScreenElement
         | RootRoute | FallbackRoute =>
             if truthy token && truthy (storage !! "authToken")
             then HomeScreenElement else LoginScreenElement
         end.
Proof.
  destruct r; cbv [settle App ProtectedRoute];
    by destruct (truthy token), (truthy (storage !! "authToken")).
Qed.

(** X23.  Every route settles on a screen within three redirects.  The home
    screen is what it settles on only when the storage holds a token as the
    protected route renders; the login route shows the login screen whether
    or not there is a token; and the root and unknown locations go by the
    token [App] read when it rendered. *)
Theorem routes_settle (token : option string) (storage : Storage)
    (r : Route) :
  settle 3 token storage r
  = Some match r with
         | LoginRoute => LoginScreenElement
         | HomeRoute =>
             if truthy (storage !! "authToken") then HomeScreenElement
             else LoginScreenElement
         | RootRoute | FallbackRoute =>
             if truthy token && truthy (storage !! "authToken")
             then HomeScreenElement else LoginScreenElement
         end ∧
  (settle 3 token storage r = Some HomeScreenElement →
   truthy (storage !! "authToken") = true).
Proof.
  rewrite settle_three. split; [done|].
  destruct r; destruct (truthy token), (truthy (storage !! "authToken"));
    simpl; congruence.
Qed.

(** X24.  After Logout a page load shows the login screen at every
    location, while the stored history is left in the storage. *)
Theorem logout_locks (s : State) (r : Route) :
  page_load (localStorage (logout s)) r = Some LoginScreenElement ∧
  localStorage (logout s) !! STORAGE_KEY = localStorage s !! STORAGE_KEY.
Proof.
  unfold page_load, logout. cbn [localStorage setLocalStorage].
  split; [|by apply lookup_delete_ne].
  rewrite settle_three, lookup_delete_eq. by destruct r.
Qed.

(** ** Retrying, and the invariant of the history under every event *)

(** X12.  A lookup that fails and is dispatched again with success leaves
    the state that the success at the first attempt leaves: the failure leaves
    no trace. *)
Theorem failed_lookup_retry (stringify : list HistoryEntry → string)
    (s : State) (q : string) (data : GeoRecord) (t now : string) :
  let n := length (inflight s) in
  let failed := step stringify (fetchGeoFor q s) (Settle n Failed t) in
  step stringify (fetchGeoFor q failed) (Settle n (Ok data) now)
  = step stringify (fetchGeoFor q s) (Settle n (Ok data) now).
Proof.
  intros n failed.
  assert (failed = setError "Unable to fetch geolocation for the provided IP." s)
    as ->.
  { unfold failed, n. by rewrite settle_dispatched. }
  unfold n.
  change (length (inflight s))
    with (length (inflight
                    (setError "Unable to fetch geolocation for the provided IP." s)))
    at 1.
  by rewrite !settle_dispatched.
Qed.

(** X25.  The invariant of the history holds under every event, deletions
    and Clear All included, from any history that has it: no two entries with
    the same [ip], and at most 50 entries. *)
Theorem history_ok_always (stringify : list HistoryEntry → string)
    (evs : list Event) (s : State) :
  NoDup (ip <$> history s) → length (history s) ≤ 50 →
  NoDup (ip <$> history (run stringify s evs)) ∧
  length (history (run stringify s evs)) ≤ 50.
Proof.
  intros Hdup Hlen. by apply (run_history_ok stringify evs s).
Qed.

(** An instance of [history_ok_always]. *)
Lemma history_ok_always_witness :
  let s := initial [Samples.old_google; Samples.old_cloudflare] ∅ in
  let evs :=
    [Mount; ToggleSelect 0; ClickHistory 1;
     Settle 1 (Ok Samples.geo_cloudflare) "2025-01-02T12:00:00.000Z";
     ClickDeleteSelected] in
  NoDup (ip <$> history s) ∧ length (history s) ≤ 50 ∧
  length (history (run Stringify.history s evs)) ≤ 50.
Proof.
  intros s evs.
  assert (NoDup (ip <$> history s)) as Hdup.
  { simpl. apply NoDup_cons. split; [not_member | apply NoDup_singleton]. }
  assert (length (history s) ≤ 50) as Hlen by (simpl; lia).
  split; [exact Hdup|]. split; [exact Hlen|].
  exact (proj2 (history_ok_always Stringify.history evs s Hdup Hlen)).
Defined.

(** ** The login server *)

Section ServerProperties.

Variable hashSync : string → string.
Variable compare : Server.Field → string → Completion bool.
Variable sign : Server.Payload → Completion string.
Variable verify : string → option Server.Payload.



(** X26.  A login request in which the address or the password is missing
    or falsy is answered 400, whatever [bcrypt] and [jsonwebtoken] would do:
    they are not consulted. *)
Theorem login_requires_fields (address secret : Server.Field) :
  Server.field_truthy address = false ∨ Server.field_truthy secret = false →
  Server.login hashSync compare sign address secret
  = {| Server.status := 400;
       Server.body := Server.ErrorBody "Email and password are required" |}.
Proof.
  unfold Server.login. intros [->| ->]; [done|].
  by rewrite orb_true_r.
Qed.

(** X27.  An address that is not registered and a wrong password for a
    registered address get the same answer, 401 with the same message: the response
    does not tell which addresses are registered. *)
Theorem login_refusal_uniform (address secret : Server.Field) :
  Server.field_truthy address = true →
  Server.field_truthy secret = true →
  Server.find_user hashSync address = None ∨
  (∃ u, Server.find_user hashSync address = Some u ∧
        compare secret (Server.password u) = Normal false) →
  Server.login hashSync compare sign address secret
  = {| Server.status := 401;
       Server.body := Server.ErrorBody "Invalid credentials" |}.
Proof.
  intros Ha Hs H. unfold Server.login. rewrite Ha, Hs. simpl.
  destruct H as [->|(u & -> & ->)]; done.
Qed.


(** X29.  The middleware reads the token as the second of the pieces of the
    [Authorization] header between single spaces and looks at nothing else:
    without a header, with a header that holds no space, or with an empty
    second piece it answers 401 without verifying anything; otherwise the
    second piece alone is verified, whatever the first piece (the scheme is
    not checked) and whatever follows the second. *)
Theorem authenticate_second_piece :
  Server.authenticateToken verify None
  = Server.Respond {| Server.status := 401;
                      Server.body := Server.ErrorBody "Access token required" |} ∧
  (∀ h, no_char " " h = true →
        Server.authenticateToken verify (Some h)
        = Server.Respond
            {| Server.status := 401;
               Server.body := Server.ErrorBody "Access token required" |}) ∧
  (∀ scheme token rest,
     forallb (no_char " ") (scheme :: token :: rest) = true →
     Server.authenticateToken verify
       (Some (unsplit " " (scheme :: token :: rest)))
     = if JsString.is_empty token then
         Server.Respond
           {| Server.status := 401;
              Server.body := Server.ErrorBody "Access token required" |}
       else
         match verify token with
         | None =>
             Server.Respond
               {| Server.status := 403;
                  Server.body := Server.ErrorBody "Invalid or expired token" |}
         | Some user => Server.Next user
         end).
Proof.
  split; [done|]. split.
  - intros h Hh. unfold Server.authenticateToken, Server.bearer.
    destruct (JsString.is_empty h) eqn:E; [done|].
    by rewrite (split_no_char _ _ Hh).
  - intros scheme token rest Hall.
    unfold Server.authenticateToken, Server.bearer.
    assert (JsString.is_empty (unsplit " " (scheme :: token :: rest)) = false)
      as ->.
    { simpl. by destruct scheme. }
    rewrite split_unsplit by done. simpl.
    by destruct token.
Qed.

End ServerProperties.

(** An instance of [login_requires_fields]. *)
Lemma login_requires_fields_witness :
  (Server.field_truthy (Server.Text "") = false ∨
   Server.field_truthy (Server.Text "password123") = false) ∧
  Server.login ServerSamples.hashSync ServerSamples.compare
    ServerSamples.sign (Server.Text "") (Server.Text "password123")
  = {| Server.status := 400;
       Server.body := Server.ErrorBody "Email and password are required" |}.
Proof.
  assert (Server.field_truthy (Server.Text "") = false ∨
          Server.field_truthy (Server.Text "password123") = false) as H
    by (left; reflexivity).
  split; [exact H|].
  exact (login_requires_fields ServerSamples.hashSync ServerSamples.compare
           ServerSamples.sign _ _ H).
Defined.

(** An instance of [login_refusal_uniform]. *)
Lemma login_refusal_uniform_witness :
  let unknown :=
    Server.login ServerSamples.hashSync ServerSamples.compare
      ServerSamples.sign (Server.Text "Test@gmail.com")
      (Server.Text "password123") in
  let wrong :=
    Server.login ServerSamples.hashSync ServerSamples.compare
      ServerSamples.sign (Server.Text "test@gmail.com")
      (Server.Text "password124") in
  Server.find_user ServerSamples.hashSync (Server.Text "Test@gmail.com")
  = None ∧
  unknown = wrong.
Proof.
  intros unknown wrong. split; [reflexivity|].
  unfold unknown, wrong.
  rewrite (login_refusal_uniform ServerSamples.hashSync ServerSamples.compare
             ServerSamples.sign (Server.Text "Test@gmail.com")
             (Server.Text "password123") eq_refl eq_refl
             (or_introl eq_refl)).
  symmetry.
  apply (login_refusal_uniform ServerSamples.hashSync ServerSamples.compare
           ServerSamples.sign (Server.Text "test@gmail.com")
           (Server.Text "password124") eq_refl eq_refl).
  right. eexists. split; reflexivity.
Defined.


(** An instance of [authenticate_second_piece]. *)
Lemma authenticate_second_piece_witness :
  forallb (no_char " ") ["Basic"; "token.test@gmail.com"; "extra"] = true ∧
  Server.authenticateToken ServerSamples.verify
    (Some "Basic token.test@gmail.com extra")
  = Server.Next {| Server.payload_id := 1;
                   Server.payload_email := "test@gmail.com";
                   Server.payload_name := "Admin User" |}.
Proof.
  split; [reflexivity|].
  exact (proj2 (proj2 (authenticate_second_piece ServerSamples.verify))
           "Basic" "token.test@gmail.com" ["extra"] eq_refl).
Defined.
